(** * Reactr: the Wasm host embedding (package [rwasm]), the GraphQL host call
      (package [api]) and the bus adapter [Listen] (package [rt]).

    A shallow embedding of the Go sources.  Go values are modelled as they
    are written: [int] and [int32] as [Z] with the wrap-around spelled out,
    slices as lists (a [[]byte] that may be [nil] as an [option]), pointers
    as addresses into explicit stores, Go maps as [gmap]s, a Go [(T, error)]
    return as a [result], and a run-time panic as an outcome of its own. *)

From stdpp Require Import gmap strings list fin_maps.
From Stdlib Require Import ZArith Lia.

Local Open Scope Z_scope.

(** ** Go: integers, errors, panics *)

Module Go.

(** Two's-complement wrap-around of a [bits]-wide signed integer. *)
Definition wrap (bits : Z) (z : Z) : Z :=
  (z + 2 ^ (bits - 1)) mod 2 ^ bits - 2 ^ (bits - 1).

(** Go's [int] on the 64-bit targets the runtime is built for. *)
Definition int (z : Z) : Z := wrap 64 z.
Definition int32 (z : Z) : Z := wrap 32 z.

Definition MaxInt32 : Z := 2147483647.
Definition MinInt : Z := - 2 ^ 63.
Definition MaxInt : Z := 2 ^ 63 - 1.

(** [rt.RunErr]: the structured error a Runnable returns. *)
Record RunErr := { Code : Z; Message : string }.

(** The error values the modelled code builds or inspects: [errors.New],
    [errors.Wrap] (github.com/pkg/errors, which keeps the cause reachable
    through [Unwrap]) and a [RunErr] used as an error. *)
Inductive error :=
| errors_New (msg : string)
| errors_Wrap (cause : error) (msg : string)
| error_RunErr (r : RunErr).

(** [errors.As(err, &RunErr{})]: the first [RunErr] on the [Unwrap] chain. *)
Fixpoint errors_As_RunErr (err : error) : option RunErr :=
  match err with
  | error_RunErr r => Some r
  | errors_Wrap cause _ => errors_As_RunErr cause
  | errors_New _ => None
  end.

(** A Go [(T, error)] return: the value when the error is [nil]. *)
Inductive result (T : Type) :=
| ok (v : T)
| fail (err : error).
Arguments ok {T} v.
Arguments fail {T} err.

(** The run-time panics the modelled code can raise. *)
Inductive panic :=
| index_out_of_range
| slice_bounds_out_of_range
| makeslice_len_out_of_range
| nil_pointer_dereference.

(** What a call does: it returns, it panics, or (for the one unbounded
    loop, in [setupNewIdentifier]) the model has no more random draws to
    feed it. *)
Inductive exec (A : Type) :=
| Returns (a : A)
| Panics (p : panic)
| Starved.
Arguments Returns {A} a.
Arguments Panics {A} p.
Arguments Starved {A}.

Definition bind {A B} (x : exec A) (k : A -> exec B) : exec B :=
  match x with
  | Returns a => k a
  | Panics p => Panics p
  | Starved => Starved
  end.

Definition len {A} (l : list A) : Z := Z.of_nat (length l).

(** [l[i]] with Go's bounds check. *)
Definition index {A} (l : list A) (i : Z) : exec A :=
  if (0 <=? i) && (i <? len l) then
    match l !! Z.to_nat i with
    | Some x => Returns x
    | None => Panics index_out_of_range
    end
  else Panics index_out_of_range.

(** [l[i:]] with Go's bounds check. *)
Definition slice_from {A} (l : list A) (i : Z) : exec (list A) :=
  if (0 <=? i) && (i <=? len l) then Returns (drop (Z.to_nat i) l)
  else Panics slice_bounds_out_of_range.

(** [l[i] = x] with Go's bounds check. *)
Definition assign {A} (l : list A) (i : Z) (x : A) : exec (list A) :=
  if (0 <=? i) && (i <? len l) then Returns (<[Z.to_nat i := x]> l)
  else Panics index_out_of_range.

(** [make([]T, n)] with elements [zero]. *)
Definition make {A} (zero : A) (n : Z) : exec (list A) :=
  if 0 <=? n then Returns (replicate (Z.to_nat n) zero)
  else Panics makeslice_len_out_of_range.

End Go.

Import Go.

(** A [[]byte]; [None] is the [nil] slice. *)
Abbreviation bytes := (list Byte.byte).
Abbreviation slice_bytes := (option (list Byte.byte)).

(** Addresses of heap objects ([*wasmEnvironment], [*wasmInstance]). *)
Abbreviation ptr := positive.

(** ** Package [rwasm]: environments, instances and the identifier registry *)

Module Rwasm.

(** *** The Wasm engine (github.com/wasmerio/wasmer-go), as far as the
    package looks at it *)

(** An exported guest function called without arguments: the error its
    call returns ([None] for [nil]). *)
Record NativeFunction := { fn_err : option error }.

(** [inst.Exports]: each getter returns a value and an error. *)
Record wasmer_Instance := {
  GetWasiStartFunction : result (option NativeFunction);
  GetFunction : string -> result (option NativeFunction);
  (** [GetMemory(name)] followed by [Data()] *)
  GetMemory : string -> result (option bytes)
}.

Record wasmer_Module := { module_code : bytes }.
Record wasmer_Store := { store_engine : unit }.
Record wasmer_ImportObject := { wasi_imports : bool; host_fns : list string }.
Record wasmer_WasiEnvironment := { wasi_program : string }.

(** [moduleref.WasmModuleRef]: a name and the lazily fetched bytes. *)
Record WasmModuleRef := { Name : string; Bytes : result bytes }.

(** The engine's constructors. *)
Record wasmer := {
  NewModule : wasmer_Store -> bytes -> result wasmer_Module;
  NewWasiStateBuilder_Finalize : string -> result wasmer_WasiEnvironment;
  GenerateImportObject :
    wasmer_WasiEnvironment -> wasmer_Store -> wasmer_Module -> result wasmer_ImportObject;
  NewInstance :
    option wasmer_Module -> option wasmer_ImportObject -> result wasmer_Instance
}.

(** [wasmer.NewImportObject()] and the package's [addHostFns]. *)
Definition NewImportObject : wasmer_ImportObject :=
  {| wasi_imports := false; host_fns := [] |}.

Definition addHostFns (imports : wasmer_ImportObject) (fns : list string)
  : wasmer_ImportObject :=
  {| wasi_imports := wasi_imports imports; host_fns := host_fns imports ++ fns |}.

(** *** [rt.Ctx], as far as the host calls look at it *)

(** A GraphQL response is only ever handed to [json.Marshal]. *)
Record GraphQLResponse := { json_Marshal_response : result bytes }.

Record Ctx := {
  Auth : string;
  GraphQLClient_Do : string -> bytes -> bytes -> result GraphQLResponse
}.

(** *** The package's own types *)

Record wasmInstance := {
  wasmerInst : option wasmer_Instance;
  ctx : option Ctx;
  ffiResult : slice_bytes;
  resultChan : option (list bytes);
  errChan : option (list RunErr)
}.

Record wasmEnvironment := {
  UUID : string;
  ref : WasmModuleRef;
  module : option wasmer_Module;
  store : option wasmer_Store;
  imports : option wasmer_ImportObject;
  instances : list ptr;
  (** the index of the last used wasm instance *)
  instIndex : Z
}.

Record instanceReference := { EnvUUID : string; InstIndex : Z }.

(** [vlog] levels; [Logger.Error] writes at [LogLevelError],
    [Logger.Warn] at [LogLevelWarn]. *)
Inductive LogLevel :=
| LogLevelError | LogLevelWarn | LogLevelInfo | LogLevelDebug | LogLevelTrace.

(** The package variables, the two object stores behind the pointers,
    the pending results of [rand.Int(rand.Reader, ...)], and the record
    of what was called on the guest and on the capabilities (oldest
    first).  The locks ([envLock], [wasmEnvironment.lock]) and the
    [access] semaphore only order concurrent callers and are not
    part of the state of a single call. *)
Record State := {
  environments : gmap string ptr;
  instanceMapper : gmap Z instanceReference;
  env_store : gmap ptr wasmEnvironment;
  inst_store : gmap ptr wasmInstance;
  rand_Reader : list (result Z);
  internalLogger : list (LogLevel * error);
  calls : list string
}.

Definition M (A : Type) : Type := State -> exec (A * State).

Definition ret {A} (a : A) : M A := fun s => Returns (a, s).

Definition bindM {A B} (m : M A) (k : A -> M B) : M B :=
  fun s => Go.bind (m s) (fun r => k (fst r) (snd r)).

Definition lift {A} (x : exec A) : M A :=
  fun s => Go.bind x (fun a => Returns (a, s)).

Definition get : M State := fun s => Returns (s, s).

Notation "'do' x <- m ; k" := (bindM m (fun x => k))
  (at level 10, x name, m at level 100, k at level 200, only parsing).
Notation "m ;; k" := (bindM m (fun _ => k))
  (at level 100, k at level 200, right associativity, only parsing).

(** Field updates. *)
Definition set_environments (v : gmap string ptr) (s : State) : State :=
  {| environments := v; instanceMapper := instanceMapper s;
     env_store := env_store s; inst_store := inst_store s;
     rand_Reader := rand_Reader s; internalLogger := internalLogger s;
     calls := calls s |}.
Definition set_instanceMapper (v : gmap Z instanceReference) (s : State) : State :=
  {| environments := environments s; instanceMapper := v;
     env_store := env_store s; inst_store := inst_store s;
     rand_Reader := rand_Reader s; internalLogger := internalLogger s;
     calls := calls s |}.
Definition set_env_store (v : gmap ptr wasmEnvironment) (s : State) : State :=
  {| environments := environments s; instanceMapper := instanceMapper s;
     env_store := v; inst_store := inst_store s;
     rand_Reader := rand_Reader s; internalLogger := internalLogger s;
     calls := calls s |}.
Definition set_inst_store (v : gmap ptr wasmInstance) (s : State) : State :=
  {| environments := environments s; instanceMapper := instanceMapper s;
     env_store := env_store s; inst_store := v;
     rand_Reader := rand_Reader s; internalLogger := internalLogger s;
     calls := calls s |}.
Definition set_rand_Reader (v : list (result Z)) (s : State) : State :=
  {| environments := environments s; instanceMapper := instanceMapper s;
     env_store := env_store s; inst_store := inst_store s;
     rand_Reader := v; internalLogger := internalLogger s;
     calls := calls s |}.
Definition set_internalLogger (v : list (LogLevel * error)) (s : State) : State :=
  {| environments := environments s; instanceMapper := instanceMapper s;
     env_store := env_store s; inst_store := inst_store s;
     rand_Reader := rand_Reader s; internalLogger := v;
     calls := calls s |}.
Definition set_calls (v : list string) (s : State) : State :=
  {| environments := environments s; instanceMapper := instanceMapper s;
     env_store := env_store s; inst_store := inst_store s;
     rand_Reader := rand_Reader s; internalLogger := internalLogger s;
     calls := v |}.

Definition set_instances (v : list ptr) (e : wasmEnvironment) : wasmEnvironment :=
  {| UUID := UUID e; ref := ref e; module := module e; store := store e;
     imports := imports e; instances := v; instIndex := instIndex e |}.
Definition set_instIndex (v : Z) (e : wasmEnvironment) : wasmEnvironment :=
  {| UUID := UUID e; ref := ref e; module := module e; store := store e;
     imports := imports e; instances := instances e; instIndex := v |}.
Definition set_internals (m : wasmer_Module) (st : wasmer_Store)
    (im : wasmer_ImportObject) (e : wasmEnvironment) : wasmEnvironment :=
  {| UUID := UUID e; ref := ref e; module := Some m; store := Some st;
     imports := Some im; instances := instances e; instIndex := instIndex e |}.

Definition set_ffiResult (v : slice_bytes) (i : wasmInstance) : wasmInstance :=
  {| wasmerInst := wasmerInst i; ctx := ctx i; ffiResult := v;
     resultChan := resultChan i; errChan := errChan i |}.
Definition set_ctx (v : option Ctx) (i : wasmInstance) : wasmInstance :=
  {| wasmerInst := wasmerInst i; ctx := v; ffiResult := ffiResult i;
     resultChan := resultChan i; errChan := errChan i |}.

(** Pointer dereference, and assignment through a pointer. *)
Definition load_env (w : ptr) : M wasmEnvironment := fun s =>
  match env_store s !! w with
  | Some e => Returns (e, s)
  | None => Panics nil_pointer_dereference
  end.

Definition store_env (w : ptr) (e : wasmEnvironment) : M unit := fun s =>
  Returns (tt, set_env_store (<[w := e]> (env_store s)) s).

Definition load_inst (w : ptr) : M wasmInstance := fun s =>
  match inst_store s !! w with
  | Some i => Returns (i, s)
  | None => Panics nil_pointer_dereference
  end.

Definition store_inst (w : ptr) (i : wasmInstance) : M unit := fun s =>
  Returns (tt, set_inst_store (<[w := i]> (inst_store s)) s).

(** A call on the guest or on a capability, noted in [calls]. *)
Definition note_call (name : string) : M unit := fun s =>
  Returns (tt, set_calls (calls s ++ [name]) s).

(** [internalLogger.Error(err)]. *)
Definition internalLogger_Error (err : error) : M unit := fun s =>
  Returns (tt, set_internalLogger (internalLogger s ++ [(LogLevelError, err)]) s).

(** [newEnvironment]; [uuid] is what [uuid.New().String()] yields. *)
Definition newEnvironment (uuid : string) (ref : WasmModuleRef) : M ptr := fun s =>
  let e := {| UUID := uuid; ref := ref; module := None; store := None;
              imports := None; instances := []; instIndex := 0 |} in
  let w := fresh (dom (env_store s)) in
  Returns (w, set_environments (<[UUID e := w]> (environments s))
                (set_env_store (<[w := e]> (env_store s)) s)).

(** [instanceAtIndex], on the environment the receiver points to. *)
Definition instanceAtIndex (w : wasmEnvironment) (idx : Z) : exec (result ptr) :=
  if len (instances w) <=? int (idx - 1) then
    Returns (fail (errors_New "invalid instance index"))
  else
    Go.bind (index (instances w) idx) (fun inst => Returns (ok inst)).

(** The host functions mounted by [internals], by constructor. *)
Definition hostFns : list string :=
  ["returnResult"; "returnError"; "getFFIResult"; "fetchURL"; "graphQLQuery";
   "cacheSet"; "cacheGet"; "logMsg"; "requestGetField"; "respSetHeader";
   "getStaticFile"; "abortHandler"]%string.

(** The [wasmInstance] that [addInstance] builds around [inst]: the engine
    instance, two channels of capacity one and a semaphore of weight one
    (not modelled), everything else nil. *)
Definition new_wasmInstance (inst : wasmer_Instance) : wasmInstance :=
  {| wasmerInst := Some inst; ctx := None; ffiResult := None;
     resultChan := Some []; errChan := Some [] |}.

Section Engine.

Variable W : wasmer.

(** [internals]: compile once, then hand out the cached fields. *)
Definition internals (w : ptr)
  : M (result (option wasmer_Module * option wasmer_Store * option wasmer_ImportObject)) :=
  do e <- load_env w;
  match module e with
  | None =>
    match Bytes (ref e) with
    | fail err => ret (fail (errors_Wrap err "failed to get ref ModuleBytes"))
    | ok moduleBytes =>
      let store := {| store_engine := tt |} in
      match NewModule W store moduleBytes with
      | fail err => ret (fail (errors_Wrap err "failed to NewModule"))
      | ok mod_ =>
        match NewWasiStateBuilder_Finalize W (Name (ref e)) with
        | fail err =>
          ret (fail (errors_Wrap err "failed to NewWasiStateBuilder.Finalize"))
        | ok env =>
          let imports :=
            match GenerateImportObject W env store mod_ with
            | ok imports => imports
            | fail _ => NewImportObject
            end in
          let imports := addHostFns imports hostFns in
          store_env w (set_internals mod_ store imports e) ;;
          ret (ok (Some mod_, Some store, Some imports))
        end
      end
    end
  | Some _ => ret (ok (module e, store e, imports e))
  end.

(** [f()] for an exported function [f], noted as [name]. *)
Definition call (name : string) (f : NativeFunction) : M (option error) :=
  note_call name ;; ret (fn_err f).

(** [addInstance] adds a new Wasm instance to the environment's pool.
    A getter's [err == nil && f != nil] test is its [ok (Some f)] case. *)
Definition addInstance (w : ptr) : M (option error) :=
  do r <- internals w;
  match r with
  | fail err => ret (Some (errors_Wrap err "failed to ModuleBytes"))
  | ok (module, _, imports) =>
    match NewInstance W module imports with
    | fail err => ret (Some (errors_Wrap err "failed to NewInstance"))
    | ok inst =>
      do started <-
        match GetWasiStartFunction inst with
        | ok (Some wasiStart) =>
          (* if the module has exported a WASI start, call it *)
          do err <- call "wasiStart" wasiStart;
          ret (option_map (fun err => errors_Wrap err "failed to wasiStart") err)
        | _ =>
          (* if the module has exported a _start function, call it *)
          match GetFunction inst "_start" with
          | ok (Some _start) =>
            do err <- call "_start" _start;
            ret (option_map (fun err => errors_Wrap err "failed to _start") err)
          | _ => ret None
          end
        end;
      match started with
      | Some err => ret (Some err)
      | None =>
        (* if the module has exported an init function, call it *)
        do failed <-
          match GetFunction inst "init" with
          | ok (Some init) =>
            do err <- call "init" init;
            ret (option_map (fun err => errors_Wrap err "failed to init") err)
          | _ => ret None
          end;
        match failed with
        | Some err => ret (Some err)
        | None =>
          let instance := new_wasmInstance inst in
          do s <- get;
          let p := fresh (dom (inst_store s)) in
          store_inst p instance ;;
          do e <- load_env w;
          store_env w (set_instances (instances e ++ [p]) e) ;;
          ret None
        end
      end
    end
  end.

End Engine.

(** The start hooks an instance exports, with the error each returns
    when called: the WASI start entry or else an exported [_start], and
    an exported [init]. *)
Definition start_hook (inst : wasmer_Instance) : list (string * option error) :=
  match GetWasiStartFunction inst with
  | ok (Some wasiStart) => [("wasiStart"%string, fn_err wasiStart)]
  | _ =>
    match GetFunction inst "_start" with
    | ok (Some _start) => [("_start"%string, fn_err _start)]
    | _ => []
    end
  end.

Definition init_hook (inst : wasmer_Instance) : list (string * option error) :=
  match GetFunction inst "init" with
  | ok (Some init) => [("init"%string, fn_err init)]
  | _ => []
  end.

(** [removeInstance]: drop the last instance of the pool. *)
Definition removeInstance (w : ptr) : M (option error) :=
  (* 1. *)
  do e <- load_env w;
  if len (instances e) =? 0 then ret None
  else
    do inst <- lift (index (instances e) (len (instances e) - 1));
    (* 3. *)
    do e <- load_env w;
    let e := if instIndex e =? len (instances e) - 1
             then set_instIndex (int (instIndex e - 1)) e else e in
    (if 0 <=? len (instances e) - 1
     then store_env w (set_instances (take (Z.to_nat (len (instances e) - 1)) (instances e)) e)
     else lift (Panics slice_bounds_out_of_range)) ;;
    (* 4. *)
    do i <- load_inst inst;
    match wasmerInst i with
    | None => lift (Panics nil_pointer_dereference)
    | Some _ =>
      store_inst inst {| wasmerInst := None; ctx := None; ffiResult := None;
                         resultChan := None; errChan := None |} ;;
      ret None
    end.

(** [randomIdentifier]: the next result of [rand.Int(rand.Reader,
    big.NewInt(math.MaxInt32))], converted by [int32(num.Int64())]. *)
Definition randomIdentifier : M (result Z) := fun s =>
  match rand_Reader s with
  | [] => Starved
  | fail err :: rest =>
    Returns (fail (errors_Wrap err "failed to rand.Int"), set_rand_Reader rest s)
  | ok num :: rest =>
    Returns (ok (int32 (wrap 64 num)), set_rand_Reader rest s)
  end.

(** [instanceMapper.Load], [.Store] and [.Delete]. *)
Definition instanceMapper_Load (ident : Z) : M (option instanceReference) := fun s =>
  Returns (instanceMapper s !! ident, s).
Definition instanceMapper_Store (ident : Z) (ref : instanceReference) : M unit := fun s =>
  Returns (tt, set_instanceMapper (<[ident := ref]> (instanceMapper s)) s).
Definition instanceMapper_Delete (ident : Z) : M unit := fun s =>
  Returns (tt, set_instanceMapper (delete ident (instanceMapper s)) s).

(** The [for] loop of [setupNewIdentifier]; [fuel] bounds the number of
    iterations. *)
Fixpoint setupNewIdentifier_loop (fuel : nat) (envUUID : string) (instIndex : Z)
  : M (result Z) :=
  match fuel with
  | O => fun _ => Starved
  | S fuel =>
    do r <- randomIdentifier;
    match r with
    | fail err => ret (fail (errors_Wrap err "failed to randomIdentifier"))
    | ok ident =>
      (* ensure we don't accidentally overwrite something else *)
      do found <- instanceMapper_Load ident;
      match found with
      | Some _ => setupNewIdentifier_loop fuel envUUID instIndex
      | None =>
        let ref := {| EnvUUID := envUUID; InstIndex := instIndex |} in
        instanceMapper_Store ident ref ;;
        ret (ok ident)
      end
    end
  end.

(** [setupNewIdentifier]: every iteration takes one draw, so the pending
    draws bound the loop. *)
Definition setupNewIdentifier (envUUID : string) (instIndex : Z) : M (result Z) :=
  fun s => setupNewIdentifier_loop (S (length (rand_Reader s))) envUUID instIndex s.

(** A draw ends the loop of [setupNewIdentifier] when it is an error or
    a token without a registry entry. *)
Definition ends_loop (registry : gmap Z instanceReference) (draw : result Z) : Prop :=
  match draw with
  | ok num => registry !! int32 (wrap 64 num) = None
  | fail _ => True
  end.

Definition removeIdentifier (ident : Z) : M unit := instanceMapper_Delete ident.

Definition instanceForIdentifier (ident : Z) (needsFFIResult : bool) : M (result ptr) :=
  do rawRef <- instanceMapper_Load ident;
  match rawRef with
  | None => ret (fail (errors_New "instance does not exist"))
  | Some ref =>
    do s <- get;
    match environments s !! EnvUUID ref with
    | None => ret (fail (errors_New "environment does not exist"))
    | Some env =>
      do e <- load_env env;
      do r <- lift (instanceAtIndex e (InstIndex ref));
      match r with
      | fail err => ret (fail (errors_Wrap err "failed to instanceAtIndex"))
      | ok inst =>
        if needsFFIResult then
          do i <- load_inst inst;
          match ffiResult i with
          | Some _ =>
            ret (fail (errors_New
              "cannot use instance for host call with existing call in progress"))
          | None => ret (ok inst)
          end
        else ret (ok inst)
      end
    end
  end.

(** The cursor step of [useInstance]: back to 0 from the last index,
    otherwise [w.instIndex++]. *)
Definition advanced (e : wasmEnvironment) : wasmEnvironment :=
  if instIndex e =? len (instances e) - 1
  then set_instIndex 0 e
  else set_instIndex (int (instIndex e + 1)) e.

(** The part of [useInstance] that runs under [w.lock]: advance the
    cursor and pick the instance it names. *)
Definition useInstance_locked (w : ptr) : M (Z * ptr) :=
  do e <- load_env w;
  let e := advanced e in
  store_env w e ;;
  let instIndex := instIndex e in
  do inst <- lift (index (instances e) instIndex);
  ret (instIndex, inst).

(** [useInstance] provides an instance from the environment's pool to be
    used by [instFunc]. *)
Definition useInstance (w : ptr) (c : option Ctx) (instFunc : ptr -> Z -> M unit)
  : M (option error) :=
  do selected <- useInstance_locked w;
  let (instIndex, inst) := selected in
  do e <- load_env w;
  do r <- setupNewIdentifier (UUID e) instIndex;
  match r with
  | fail err => ret (Some (errors_Wrap err "failed to setupNewIdentifier"))
  | ok ident =>
    (* setup the instance's temporary state *)
    do i <- load_inst inst;
    store_inst inst (set_ctx c (set_ffiResult None i)) ;;
    (* do the actual call into the Wasm module *)
    instFunc inst ident ;;
    (* clear the instance's temporary state *)
    do i <- load_inst inst;
    store_inst inst (set_ffiResult None (set_ctx None i)) ;;
    (* remove the instance from global state *)
    removeIdentifier ident ;;
    ret None
  end.

(** [setFFIResult] and [useFFIResult], on the instance the receiver
    points to: the returned values and the instance afterwards. *)
Definition setFFIResult (w : wasmInstance) (data : slice_bytes)
  : option error * wasmInstance :=
  match ffiResult w with
  | Some _ => (Some (errors_New "instance ffiResult is already set"), w)
  | None => (None, set_ffiResult data w)
  end.

Definition useFFIResult (w : wasmInstance) : result slice_bytes * wasmInstance :=
  match ffiResult w with
  | None => (fail (errors_New "instance ffiResult is not set"), w)
  | Some _ => (ok (ffiResult w), set_ffiResult None w)
  end.

(** The copy loop of [readMemory]:
    [for index := 0; int32(index) < size; index++]. *)
Fixpoint readMemory_loop (fuel : nat) (index : Z) (size : Z) (data result : bytes)
  : exec bytes :=
  if int32 index <? size then
    match fuel with
    | O => Starved
    | S fuel =>
      Go.bind (Go.index data index) (fun b =>
      Go.bind (assign result index b) (fun result =>
      readMemory_loop fuel (int (index + 1)) size data result))
    end
  else Returns result.

Definition readMemory (w : wasmInstance) (pointer size : Z) : exec bytes :=
  match wasmerInst w with
  | None => Panics nil_pointer_dereference
  | Some wasmerInst =>
    match GetMemory wasmerInst "memory" with
    | ok (Some memory) =>
      Go.bind (slice_from memory pointer) (fun data =>
      Go.bind (make Byte.x00 size) (fun result =>
      readMemory_loop (Z.to_nat size) 0 size data result))
    | _ =>
      (* we failed *)
      Returns []
    end
  end.

(** The environment at [w] is the one [environments] holds under its
    UUID, as [newEnvironment] leaves it. *)
Definition registered (s : State) (w : ptr) : Prop :=
  exists e, env_store s !! w = Some e /\ environments s !! UUID e = Some w.

(** The registry entry of [ident] leads to the instance [inst]: an entry
    exists, its environment is in [environments], and the indexed
    lookup in that environment yields [inst]. *)
Definition resolves (s : State) (ident : Z) (inst : ptr) : Prop :=
  exists ref env e,
    instanceMapper s !! ident = Some ref /\
    environments s !! EnvUUID ref = Some env /\
    env_store s !! env = Some e /\
    instanceAtIndex e (InstIndex ref) = Returns (ok inst).

End Rwasm.

(** ** [setupNewIdentifier] run by several goroutines

    [useInstance] calls [setupNewIdentifier] after it has released the
    environment's lock, holding only the semaphore of its own instance, so
    calls for different instances run side by side.  Each goroutine then
    performs the loop's three operations one at a time: the draw, the
    [Load] and the [Store] (each atomic on its own). *)

Module Goroutines.

Import Rwasm.

(** Where a goroutine stands inside [setupNewIdentifier]. *)
Inductive position :=
| at_randomIdentifier
| at_Load (ident : Z)
| at_Store (ident : Z)
| returned (r : result Z).

Record goroutine := { envUUID : string; instIndex : Z; at_ : position }.

Definition move (g : goroutine) (p : position) : goroutine :=
  {| envUUID := envUUID g; instIndex := instIndex g; at_ := p |}.

(** A call about to start. *)
Definition calling (envUUID : string) (instIndex : Z) : goroutine :=
  {| envUUID := envUUID; instIndex := instIndex; at_ := at_randomIdentifier |}.

(** The next operation of [g]. *)
Definition step (g : goroutine) : M goroutine :=
  match at_ g with
  | at_randomIdentifier =>
    do r <- randomIdentifier;
    match r with
    | fail err =>
      ret (move g (returned (fail (errors_Wrap err "failed to randomIdentifier"))))
    | ok ident => ret (move g (at_Load ident))
    end
  | at_Load ident =>
    do found <- instanceMapper_Load ident;
    match found with
    | Some _ => ret (move g at_randomIdentifier)
    | None => ret (move g (at_Store ident))
    end
  | at_Store ident =>
    let ref := {| EnvUUID := envUUID g; InstIndex := instIndex g |} in
    instanceMapper_Store ident ref ;;
    ret (move g (returned (ok ident)))
  | returned _ => ret g
  end.

(** [n] operations of one goroutine, nobody else running. *)
Fixpoint run_alone (n : nat) (g : goroutine) : M goroutine :=
  match n with
  | O => ret g
  | S n => do g <- step g; run_alone n g
  end.

(** A schedule names, operation by operation, the goroutine that runs. *)
Fixpoint run (schedule : list nat) (gs : list goroutine) : M (list goroutine) :=
  match schedule with
  | [] => ret gs
  | k :: schedule =>
    match gs !! k with
    | None => run schedule gs
    | Some g => do g <- step g; run schedule (<[k := g]> gs)
    end
  end.

End Goroutines.

(** ** Package [api]: the [graphql_query] host function *)

Module Api.

Import Rwasm.

(** [graphql_query]; [runtime.InstanceForIdentifier], [ReadMemory],
    [Ctx] and [SetFFIResult] are the exported names of the functions
    above. *)
Definition graphql_query
    (endpointPointer endpointSize queryPointer querySize identifier : Z) : M Z :=
  do r <- instanceForIdentifier identifier true;
  match r with
  | fail err =>
    internalLogger_Error (errors_Wrap err
      "[rwasm] alert: invalid identifier used, potential malicious activity") ;;
    ret (-1)
  | ok inst =>
    do i <- load_inst inst;
    do endpoint <- lift (readMemory i endpointPointer endpointSize);
    do query <- lift (readMemory i queryPointer querySize);
    match ctx i with
    | None => lift (Panics nil_pointer_dereference)
    | Some c =>
      note_call "GraphQLClient.Do" ;;
      match GraphQLClient_Do c (Auth c) endpoint query with
      | fail err =>
        internalLogger_Error (errors_Wrap err "failed to GraphQLClient.Do") ;;
        ret (-1)
      | ok resp =>
        match json_Marshal_response resp with
        | fail err =>
          internalLogger_Error (errors_Wrap err "[rwasm] alert: failed to Marshal") ;;
          ret (-1)
        | ok respBytes =>
          do i <- load_inst inst;
          store_inst inst (snd (setFFIResult i (Some respBytes))) ;;
          ret (int32 (len respBytes))
        end
      end
    end
  end.

End Api.

(** ** Package [rt]: the bus adapter [Listen] *)

Module Rt.

Definition MsgTypeReactrJobErr : string := "reactr.joberr".
Definition MsgTypeReactrRunErr : string := "reactr.runerr".
Definition MsgTypeReactrResult : string := "reactr.result".
Definition MsgTypeReactrNilResult : string := "reactr.nil".

(** A [grav.Message]. *)
Record Message := {
  UUID : string;
  ParentID : string;
  ReplyTo : string;
  Type_ : string;
  Data : bytes
}.

Definition SetReplyTo (uuid : string) (m : Message) : Message :=
  {| UUID := UUID m; ParentID := ParentID m; ReplyTo := uuid;
     Type_ := Type_ m; Data := Data m |}.

(** [grav.NewMsgWithParentID]; [uuid] is the fresh UUID it draws. *)
Definition NewMsgWithParentID (uuid : string) (msgType parentID : string)
    (data : bytes) : Message :=
  {| UUID := uuid; ParentID := parentID; ReplyTo := ""; Type_ := msgType;
     Data := data |}.

(** A value of any other dynamic type than the ones [Listen] tells
    apart is only ever handed to [json.Marshal]. *)
Record other := { json_Marshal : result bytes }.

(** The [interface{}] a job's [Then()] yields, by the dynamic types the
    handler distinguishes. *)
Inductive any :=
| any_nil
| any_Message (m : Message)
| any_bytes (b : bytes)
| any_string (s : string)
| any_other (v : other).

Record Job := { jobType : string; data : bytes }.

Definition NewJob (jobType : string) (data : bytes) : Job :=
  {| jobType := jobType; data := data |}.

(** What the handler leaves behind: the messages handed to
    [pod.ReplyTo] (each with its [ReplyTo] set to the inbound message,
    as [ReplyTo] does before sending), the errors given to
    [r.log.Error], and the error it returns. *)
Record handled := {
  replies : list Message;
  logged : list error;
  returns : option error
}.

Section Listen.

(** [RunErr]'s [Error] method. *)
Variable RunErr_Error : RunErr -> string.

(** [r.Do(job).Then()]: the job's result and error. *)
Variable Do_Then : Job -> any * option error.

Fixpoint Error (err : error) : string :=
  match err with
  | errors_New msg => msg
  | errors_Wrap cause msg => msg +:+ ": " +:+ Error cause
  | error_RunErr r => RunErr_Error r
  end.

Definition pod_ReplyTo (msg replyMsg : Message) : Message :=
  SetReplyTo (UUID msg) replyMsg.

(** The function [Listen] registers with [pod.OnType(msgType, ...)];
    [uuid] is the UUID a new reply message gets. *)
Definition Listen_onMessage (msgType : string) (uuid : string) (msg : Message)
  : handled :=
  let helper := fun data => Do_Then (NewJob msgType data) in
  let (result, err) := helper (Data msg) in
  let (replyMsg, logged) :=
    match err with
    | Some err =>
      let logged :=
        [errors_Wrap err ("job from message " +:+ UUID msg +:+ " returned error result")] in
      match errors_As_RunErr err with
      | Some runErr =>
        (* if a Wasm Runnable returned a RunErr, let's be sure to handle that *)
        (NewMsgWithParentID uuid MsgTypeReactrRunErr (ParentID msg)
           (String.list_byte_of_string (RunErr_Error runErr)), logged)
      | None =>
        (NewMsgWithParentID uuid MsgTypeReactrJobErr (ParentID msg)
           (String.list_byte_of_string (Error err)), logged)
      end
    | None =>
      match result with
      | any_nil =>
        (* if the job returned no result *)
        (NewMsgWithParentID uuid MsgTypeReactrNilResult (ParentID msg) [], [])
      | any_Message resultMsg =>
        (* if the job returned a Grav message *)
        (SetReplyTo (UUID msg) resultMsg, [])
      | any_bytes bytes =>
        (NewMsgWithParentID uuid MsgTypeReactrResult (ParentID msg) bytes, [])
      | any_string resultString =>
        (NewMsgWithParentID uuid MsgTypeReactrResult (ParentID msg)
           (String.list_byte_of_string resultString), [])
      | any_other v =>
        (* if the job returned something else like a struct *)
        match json_Marshal v with
        | fail err =>
          (NewMsgWithParentID uuid MsgTypeReactrJobErr (ParentID msg)
             (String.list_byte_of_string
                (Error (errors_Wrap err "failed to Marshal job result"))),
           [errors_Wrap err ("job from message " +:+ UUID msg +:+
              " returned result that could not be JSON marshalled")])
        | ok resultJSON =>
          (NewMsgWithParentID uuid MsgTypeReactrResult (ParentID msg) resultJSON, [])
        end
      end
    end in
  {| replies := [pod_ReplyTo msg replyMsg]; logged := logged; returns := None |}.

End Listen.

End Rt.

(** ** Package [rwasm]: the glue code that writes guest memory *)

Module Glue.

Import Rwasm.

(** Go's [copy(dst, src)]: [dst] afterwards.  It copies as many elements
    as the shorter of the two slices has. *)
Definition copy {A} (dst src : list A) : list A :=
  take (length dst) src ++ drop (length src) dst.

(** The guest instance with its [memory] export holding [memory]. *)
Definition with_memory (memory : bytes) (inst : wasmer_Instance) : wasmer_Instance :=
  {| GetWasiStartFunction := GetWasiStartFunction inst;
     GetFunction := GetFunction inst;
     GetMemory := fun name =>
       if String.eqb name "memory" then ok (Some memory) else GetMemory inst name |}.

Definition set_wasmerInst (v : option wasmer_Instance) (i : wasmInstance) : wasmInstance :=
  {| wasmerInst := v; ctx := ctx i; ffiResult := ffiResult i;
     resultChan := resultChan i; errChan := errChan i |}.

(** [writeMemoryAtLocation]: the instance afterwards.  The write goes
    through the slice [memory.Data()[pointer:]], so it changes the guest's
    memory in place. *)
Definition writeMemoryAtLocation (w : wasmInstance) (pointer : Z) (data : bytes)
  : exec wasmInstance :=
  match wasmerInst w with
  | None => Panics nil_pointer_dereference
  | Some inst =>
    match GetMemory inst "memory" with
    | ok (Some memory) =>
      Go.bind (slice_from memory pointer) (fun scopedMemory =>
      Returns (set_wasmerInst
                 (Some (with_memory
                          (take (Z.to_nat pointer) memory ++ copy scopedMemory data)
                          inst)) w))
    | _ =>
      (* we failed *)
      Returns w
    end
  end.

Section Guest.

(** What calling the guest's [allocate] export with a size does: the
    pointer or error it returns, and the guest afterwards (the allocator
    works inside the guest's own memory).  The result is taken to be an
    [int32], as the code's type assertion requires. *)
Variable allocate : Z -> wasmer_Instance -> result Z * wasmer_Instance.

(** [writeMemory]: the returned pointer or error, and the instance
    afterwards. *)
Definition writeMemory (w : wasmInstance) (data : bytes)
  : exec (result Z * wasmInstance) :=
  let lengthOfInput := len data in
  match wasmerInst w with
  | None => Panics nil_pointer_dereference
  | Some inst =>
    match GetFunction inst "allocate" with
    | ok (Some _) =>
      (* Allocate memory for the input, and get a pointer to it. *)
      let (allocateResult, inst) := allocate lengthOfInput inst in
      let w := set_wasmerInst (Some inst) w in
      match allocateResult with
      | fail err => Returns (fail (errors_Wrap err "failed to call allocate"), w)
      | ok pointer =>
        Go.bind (writeMemoryAtLocation w pointer data) (fun w =>
        Returns (ok pointer, w))
      end
    | _ => Returns (fail (errors_New "missing required FFI function: allocate"), w)
    end
  end.

End Guest.

End Glue.

(** ** The pool of an environment as a whole *)

Module Pool.

Import Rwasm.

(** The cursor names an instance of the list or stands just before the
    first one; in an empty pool it is 0 or -1. *)
Definition cursor_ok (e : wasmEnvironment) : Prop :=
  -1 <= instIndex e <= Z.max 0 (len (instances e) - 1).

(** The instance at [p] is in the store and holds an engine instance. *)
Definition usable (s : State) (p : ptr) : Prop :=
  exists x guest, inst_store s !! p = Some x /\ wasmerInst x = Some guest.

(** The pool of [w]: its cursor is in place, and its instances are
    distinct and usable. *)
Definition pool_ok (s : State) (w : ptr) : Prop :=
  exists e,
    env_store s !! w = Some e /\
    cursor_ok e /\
    len (instances e) <= MaxInt /\
    NoDup (instances e) /\
    Forall (usable s) (instances e).

(** The operations the scheduler performs on a pool: a worker is added,
    a worker is removed, a job picks its instance. *)
Inductive op := op_addInstance | op_removeInstance | op_useInstance.

Section Engine.

Variable W : wasmer.

Definition perform (w : ptr) (o : op) : M unit :=
  match o with
  | op_addInstance => addInstance W w ;; ret tt
  | op_removeInstance => removeInstance w ;; ret tt
  | op_useInstance => useInstance_locked w ;; ret tt
  end.

Fixpoint perform_all (w : ptr) (ops : list op) : M unit :=
  match ops with
  | [] => ret tt
  | o :: ops => perform w o ;; perform_all w ops
  end.

End Engine.

End Pool.

(** ** Package [api]: the host function around [graphql_query] *)

Module Host.

Import Rwasm.


End Host.

(** ** Sample values: a module with a one-page memory of four bytes, an
    environment holding one instance of it, and the package state around
    them. *)

Module Sample.

Import Rwasm.

Definition memory : bytes := [Byte.x0a; Byte.x0b; Byte.x0c; Byte.x0d].

Definition guest : wasmer_Instance :=
  {| GetWasiStartFunction := fail (errors_New "WASI start function was not found");
     GetFunction := fun name =>
       if String.eqb name "init" then ok (Some {| fn_err := None |})
       else fail (errors_New "export not found");
     GetMemory := fun name =>
       if String.eqb name "memory" then ok (Some memory)
       else fail (errors_New "export not found") |}.

Definition engine : wasmer :=
  {| NewModule := fun _ code => ok {| module_code := code |};
     NewWasiStateBuilder_Finalize := fun name => ok {| wasi_program := name |};
     GenerateImportObject := fun _ _ _ =>
       ok {| wasi_imports := true; host_fns := [] |};
     NewInstance := fun _ _ => ok guest |}.

Definition idle : wasmInstance :=
  {| wasmerInst := Some guest; ctx := None; ffiResult := None;
     resultChan := Some []; errChan := Some [] |}.

Definition staged : wasmInstance := set_ffiResult (Some [Byte.x7b; Byte.x7d]) idle.

Definition env (insts : list ptr) (cursor : Z) : wasmEnvironment :=
  {| UUID := "env-1"; ref := {| Name := "hello"; Bytes := ok [Byte.x00] |};
     module := None; store := None; imports := None;
     instances := insts; instIndex := cursor |}.

(** One environment at address 1 with one instance at address 1. *)
Definition state (i : wasmInstance) (registry : gmap Z instanceReference)
    (draws : list (result Z)) : State :=
  {| environments := {[ "env-1"%string := 1%positive ]};
     instanceMapper := registry;
     env_store := {[ 1%positive := env [1%positive] 0 ]};
     inst_store := {[ 1%positive := i ]};
     rand_Reader := draws;
     internalLogger := [];
     calls := [] |}.

(** The same environment with two idle instances, at addresses 1 and 2. *)
Definition pool_of_two (draws : list (result Z)) : State :=
  {| environments := {[ "env-1"%string := 1%positive ]};
     instanceMapper := ∅;
     env_store := {[ 1%positive := env [1%positive; 2%positive] 0 ]};
     inst_store := {[ 1%positive := idle; 2%positive := idle ]};
     rand_Reader := draws;
     internalLogger := [];
     calls := [] |}.

(** A bus message of type [compute] with body ["5"], and a message a job
    may return as its result. *)
Definition inbound : Rt.Message :=
  {| Rt.UUID := "msg-1"; Rt.ParentID := "parent-1"; Rt.ReplyTo := "";
     Rt.Type_ := "compute"; Rt.Data := [Byte.x35] |}.

Definition custom : Rt.Message :=
  {| Rt.UUID := "msg-2"; Rt.ParentID := "parent-2"; Rt.ReplyTo := "";
     Rt.Type_ := "custom.topic"; Rt.Data := [Byte.x36] |}.

(** A result value that [json.Marshal] rejects. *)
Definition unmarshallable : Rt.other :=
  {| Rt.json_Marshal := fail (errors_New "json: unsupported type: chan int") |}.

Definition RunErr_Error (r : RunErr) : string := Message r.

(** A job in flight on the sample instance: a context whose GraphQL
    client knows one endpoint, and the registry entry of the call. *)
Definition response : GraphQLResponse :=
  {| json_Marshal_response := ok [Byte.x7b; Byte.x7d] |}.

Definition graphql : Ctx :=
  {| Auth := "token";
     GraphQLClient_Do := fun auth endpoint query =>
       match endpoint with
       | Byte.x0a :: _ => ok response
       | _ => fail (errors_New "no such endpoint")
       end |}.

Definition in_call : wasmInstance := set_ctx (Some graphql) idle.

Definition registry : gmap Z instanceReference :=
  {[ 5 := {| EnvUUID := "env-1"; InstIndex := 0 |} ]}.

(** A guest with an [allocate] export that hands out offset 1 for up to
    three bytes. *)
Definition allocating_guest : wasmer_Instance :=
  {| GetWasiStartFunction := fail (errors_New "WASI start function was not found");
     GetFunction := fun name =>
       if String.eqb name "allocate" then ok (Some {| fn_err := None |})
       else fail (errors_New "export not found");
     GetMemory := fun name =>
       if String.eqb name "memory" then ok (Some memory)
       else fail (errors_New "export not found") |}.

Definition allocate (size : Z) (g : wasmer_Instance) : result Z * wasmer_Instance :=
  if size <=? 3 then (ok 1, g) else (fail (errors_New "out of memory"), g).

Definition allocating : wasmInstance :=
  Glue.set_wasmerInst (Some allocating_guest) idle.

(** An instance of a module that exports no memory. *)
Definition without_memory : wasmInstance :=
  Glue.set_wasmerInst
    (Some {| GetWasiStartFunction := fail (errors_New "WASI start function was not found");
             GetFunction := fun _ => fail (errors_New "export not found");
             GetMemory := fun _ => fail (errors_New "export not found") |}) idle.

(** A guest that exports the WASI start entry, [_start] and [init]; its
    [init] returns [init_err].  The engine that instantiates it. *)
Definition hooked_guest (init_err : option error) : wasmer_Instance :=
  {| GetWasiStartFunction := ok (Some {| fn_err := None |});
     GetFunction := fun name =>
       if String.eqb name "init" then ok (Some {| fn_err := init_err |})
       else if String.eqb name "_start" then ok (Some {| fn_err := None |})
       else fail (errors_New "export not found");
     GetMemory := fun name =>
       if String.eqb name "memory" then ok (Some memory)
       else fail (errors_New "export not found") |}.

Definition hooked_engine (init_err : option error) : wasmer :=
  {| NewModule := NewModule engine;
     NewWasiStateBuilder_Finalize := NewWasiStateBuilder_Finalize engine;
     GenerateImportObject := GenerateImportObject engine;
     NewInstance := fun _ _ => ok (hooked_guest init_err) |}.

(** A freshly created environment: no instance yet. *)
Definition empty_pool : State :=
  {| environments := {[ "env-1"%string := 1%positive ]};
     instanceMapper := ∅;
     env_store := {[ 1%positive := env [] 0 ]};
     inst_store := ∅;
     rand_Reader := [];
     internalLogger := [];
     calls := [] |}.

End Sample.

(** * Properties *)

Import Rwasm.

(** ** Go integers and slices *)

(** Arithmetic over lengths and the bounds of [int]. *)
Ltac go_lia := unfold len, MinInt, MaxInt, MaxInt32 in *; lia.

(** [H : t = v] for the value [v] that [t] evaluates to. *)
Ltac evaluated H t :=
  let v := eval vm_compute in t in
  assert (H : t = v) by (vm_compute; reflexivity).

(** Settle every integer comparison of the goal that arithmetic decides. *)
Ltac settle_cmp :=
  repeat match goal with
  | |- context [?a <=? ?b] =>
    first [ replace (a <=? b) with true by (symmetry; apply Z.leb_le; go_lia)
          | replace (a <=? b) with false by (symmetry; apply Z.leb_gt; go_lia) ]
  | |- context [?a <? ?b] =>
    first [ replace (a <? b) with true by (symmetry; apply Z.ltb_lt; go_lia)
          | replace (a <? b) with false by (symmetry; apply Z.ltb_ge; go_lia) ]
  end.

Lemma wrap_id bits z :
  0 < bits -> - 2 ^ (bits - 1) <= z < 2 ^ (bits - 1) -> wrap bits z = z.
Proof.
  intros Hb Hz. unfold wrap.
  assert (H2 : 2 ^ bits = 2 * 2 ^ (bits - 1)).
  { replace bits with (Z.succ (bits - 1)) at 1 by lia.
    rewrite Z.pow_succ_r by lia. reflexivity. }
  rewrite Z.mod_small by lia. lia.
Qed.

Lemma int_id z : MinInt <= z <= MaxInt -> int z = z.
Proof. unfold int, MinInt, MaxInt. intros H. apply wrap_id; simpl in *; lia. Qed.

Lemma int32_id z : - 2147483648 <= z <= MaxInt32 -> int32 z = z.
Proof. unfold int32, MaxInt32. intros H. apply wrap_id; simpl in *; lia. Qed.

Lemma int_range z : MinInt <= int z <= MaxInt.
Proof.
  unfold int, wrap, MinInt, MaxInt.
  pose proof (Z.mod_pos_bound (z + 2 ^ (64 - 1)) (2 ^ 64) ltac:(lia)).
  change (2 ^ (64 - 1)) with 9223372036854775808 in *.
  change (2 ^ 63) with 9223372036854775808.
  change (2 ^ 64) with 18446744073709551616 in *. lia.
Qed.

Lemma index_Some {A} (l : list A) (i : Z) (x : A) :
  0 <= i -> l !! Z.to_nat i = Some x -> index l i = Returns x.
Proof.
  intros Hi Hx. unfold index, len.
  pose proof (lookup_lt_Some _ _ _ Hx) as Hlt.
  replace (0 <=? i) with true by (symmetry; apply Z.leb_le; lia).
  replace (i <? Z.of_nat (length l)) with true by (symmetry; apply Z.ltb_lt; lia).
  simpl. rewrite Hx. reflexivity.
Qed.

Lemma index_Returns {A} (l : list A) (i : Z) (x : A) :
  index l i = Returns x -> 0 <= i < len l /\ l !! Z.to_nat i = Some x.
Proof.
  unfold index, len. intros H.
  destruct (0 <=? i) eqn:H0; simpl in H; [|discriminate].
  destruct (i <? Z.of_nat (length l)) eqn:H1; simpl in H; [|discriminate].
  destruct (l !! Z.to_nat i) eqn:Hl; inversion H; subst.
  apply Z.leb_le in H0. apply Z.ltb_lt in H1. auto.
Qed.

Lemma index_out_of_range_panics {A} (l : list A) (i : Z) :
  i < 0 \/ len l <= i -> index l i = Panics index_out_of_range.
Proof.
  unfold index, len. intros H.
  destruct (0 <=? i) eqn:H0; simpl; [|reflexivity].
  destruct (i <? Z.of_nat (length l)) eqn:H1; simpl; [|reflexivity].
  apply Z.leb_le in H0. apply Z.ltb_lt in H1. unfold len in H. lia.
Qed.

(** ** [instanceAtIndex] *)

(** An index inside the list is looked up, whatever the list's size. *)
Lemma instanceAtIndex_in_range (w : wasmEnvironment) (idx : Z) (inst : ptr) :
  0 <= idx -> instances w !! Z.to_nat idx = Some inst ->
  instanceAtIndex w idx = Returns (ok inst).
Proof.
  intros Hidx Hinst. unfold instanceAtIndex.
  pose proof (lookup_lt_Some _ _ _ Hinst) as Hlt.
  pose proof (int_range (idx - 1)) as Hr.
  assert (Hle : int (idx - 1) <= idx - 1).
  { destruct (Z_le_gt_dec (idx - 1) MaxInt) as [Hs|Hs].
    - rewrite int_id; [lia|]. unfold MinInt, MaxInt in *. lia.
    - lia. }
  replace (len (instances w) <=? int (idx - 1)) with false
    by (symmetry; apply Z.leb_gt; unfold len; lia).
  rewrite (index_Some _ _ _ Hidx Hinst). reflexivity.
Qed.

(** Indices beyond the length by at least one are refused with an error. *)
Lemma instanceAtIndex_beyond (w : wasmEnvironment) (idx : Z) :
  len (instances w) < idx <= MaxInt ->
  instanceAtIndex w idx = Returns (fail (errors_New "invalid instance index")).
Proof.
  intros H. unfold instanceAtIndex.
  rewrite int_id by go_lia. settle_cmp. reflexivity.
Qed.

(** C2: the guard [len(w.instances) <= idx-1] lets [idx = len(w.instances)]
    through, and the lookup [w.instances[idx]] that follows is out of
    range: for every environment (with a list of a length a Go slice can
    have) the call at [idx = len(instances)] panics instead of returning the
    error the bounds check is there to return. *)
Theorem instanceAtIndex_at_len_panics (w : wasmEnvironment) :
  len (instances w) <= MaxInt ->
  instanceAtIndex w (len (instances w)) = Panics index_out_of_range.
Proof.
  intros H. unfold instanceAtIndex.
  rewrite int_id by go_lia. settle_cmp.
  rewrite index_out_of_range_panics by lia. reflexivity.
Qed.

Lemma instanceAtIndex_at_len_panics_witness :
  instanceAtIndex (Sample.env [1%positive] 0) 1 = Panics index_out_of_range.
Proof.
  apply (instanceAtIndex_at_len_panics (Sample.env [1%positive] 0)).
  vm_compute. discriminate.
Defined.

(** A negative index passes the guard as well and panics in the lookup. *)
Lemma instanceAtIndex_negative_panics (w : wasmEnvironment) (idx : Z) :
  MinInt < idx < 0 -> instanceAtIndex w idx = Panics index_out_of_range.
Proof.
  intros H. unfold instanceAtIndex.
  rewrite int_id by go_lia. settle_cmp.
  rewrite index_out_of_range_panics by lia. reflexivity.
Qed.

(** ** [setFFIResult] and [useFFIResult] *)

(** C6: [setFFIResult] succeeds exactly when no result is staged, and
    then stages [data]; with a result staged it returns an error and
    leaves the instance as it is; [useFFIResult] on a staged result
    returns those bytes and leaves [ffiResult] nil, so that the next
    [setFFIResult] succeeds again. *)
Theorem ffiResult_set_once_per_cycle (w : wasmInstance) (data : slice_bytes) :
  (fst (setFFIResult w data) = None <-> ffiResult w = None) /\
  (ffiResult w = None -> snd (setFFIResult w data) = set_ffiResult data w) /\
  (forall staged, ffiResult w = Some staged ->
     (exists err, fst (setFFIResult w data) = Some err) /\
     snd (setFFIResult w data) = w /\
     fst (useFFIResult w) = ok (Some staged) /\
     ffiResult (snd (useFFIResult w)) = None /\
     forall data', setFFIResult (snd (useFFIResult w)) data'
                   = (None, set_ffiResult data' (snd (useFFIResult w)))).
Proof.
  unfold setFFIResult, useFFIResult.
  destruct (ffiResult w) as [b|] eqn:Hw; simpl.
  - split; [split; discriminate|]. split; [discriminate|].
    intros staged [= <-]. repeat split; eauto.
  - split; [tauto|]. split; [reflexivity|]. discriminate.
Qed.

Lemma ffiResult_set_once_per_cycle_witness :
  fst (setFFIResult Sample.staged (Some [Byte.x00])) <> None /\
  fst (useFFIResult Sample.staged) = ok (Some [Byte.x7b; Byte.x7d]) /\
  fst (setFFIResult (snd (useFFIResult Sample.staged)) (Some [Byte.x00])) = None.
Proof.
  destruct (ffiResult_set_once_per_cycle Sample.staged (Some [Byte.x00]))
    as (Hiff & _ & Hstaged).
  destruct (Hstaged [Byte.x7b; Byte.x7d] eq_refl) as (_ & _ & Huse & _ & Hagain).
  split; [|split].
  - intros Hnone. apply Hiff in Hnone. discriminate Hnone.
  - exact Huse.
  - rewrite (Hagain (Some [Byte.x00])). reflexivity.
Defined.

(** [useFFIResult] with nothing staged is an error and changes nothing. *)
Lemma useFFIResult_unset (w : wasmInstance) :
  ffiResult w = None ->
  useFFIResult w = (fail (errors_New "instance ffiResult is not set"), w).
Proof. unfold useFFIResult. intros ->. reflexivity. Qed.

(** ** [instanceForIdentifier] *)

Lemma instanceForIdentifier_unknown (s : State) (ident : Z) (needsFFIResult : bool) :
  instanceMapper s !! ident = None ->
  instanceForIdentifier ident needsFFIResult s
  = Returns (fail (errors_New "instance does not exist"), s).
Proof.
  intros H. unfold instanceForIdentifier, bindM, instanceMapper_Load. simpl.
  rewrite H. reflexivity.
Qed.

Lemma instanceForIdentifier_resolves (s : State) (ident : Z) (inst : ptr) :
  resolves s ident inst ->
  instanceForIdentifier ident false s = Returns (ok inst, s).
Proof.
  intros (ref & env & e & Hm & He & Hs & Hi).
  unfold instanceForIdentifier, bindM, instanceMapper_Load, get, load_env, lift.
  simpl. rewrite Hm. simpl. rewrite He, Hs. simpl. rewrite Hi. reflexivity.
Qed.

(** C5: when the identifier leads to an instance that holds a staged
    [ffiResult], the lookup with [needsFFIResult = true] returns the
    "call in progress" error and not the instance, while the lookup with
    [needsFFIResult = false] returns the instance. *)
Theorem instanceForIdentifier_reentrancy
    (s : State) (ident : Z) (inst : ptr) (i : wasmInstance) :
  resolves s ident inst ->
  inst_store s !! inst = Some i ->
  ffiResult i <> None ->
  instanceForIdentifier ident true s
  = Returns (fail (errors_New
      "cannot use instance for host call with existing call in progress"), s) /\
  instanceForIdentifier ident false s = Returns (ok inst, s).
Proof.
  intros Hres Hinst Hffi. split; [|apply instanceForIdentifier_resolves, Hres].
  destruct Hres as (ref & env & e & Hm & He & Hs & Hi).
  unfold instanceForIdentifier, bindM, instanceMapper_Load, get, load_env,
    load_inst, lift.
  simpl. rewrite Hm. simpl. rewrite He, Hs. simpl. rewrite Hi. simpl.
  rewrite Hinst. simpl. destruct (ffiResult i); [reflexivity|congruence].
Qed.

Lemma instanceForIdentifier_reentrancy_witness :
  let s := Sample.state Sample.staged
             {[ 5 := {| EnvUUID := "env-1"; InstIndex := 0 |} ]} [] in
  instanceForIdentifier 5 true s
  = Returns (fail (errors_New
      "cannot use instance for host call with existing call in progress"), s) /\
  instanceForIdentifier 5 false s = Returns (ok 1%positive, s).
Proof.
  apply (instanceForIdentifier_reentrancy _ 5 1%positive Sample.staged).
  - exists {| EnvUUID := "env-1"; InstIndex := 0 |}, 1%positive,
      (Sample.env [1%positive] 0).
    repeat split; vm_compute; reflexivity.
  - vm_compute. reflexivity.
  - vm_compute. discriminate.
Defined.

(** With nothing staged the lookup succeeds for either flag. *)
Lemma instanceForIdentifier_idle
    (s : State) (ident : Z) (inst : ptr) (i : wasmInstance) (needsFFIResult : bool) :
  resolves s ident inst ->
  inst_store s !! inst = Some i ->
  ffiResult i = None ->
  instanceForIdentifier ident needsFFIResult s = Returns (ok inst, s).
Proof.
  intros Hres Hinst Hffi.
  destruct needsFFIResult; [|apply instanceForIdentifier_resolves, Hres].
  destruct Hres as (ref & env & e & Hm & He & Hs & Hi).
  unfold instanceForIdentifier, bindM, instanceMapper_Load, get, load_env,
    load_inst, lift.
  simpl. rewrite Hm. simpl. rewrite He, Hs. simpl. rewrite Hi. simpl.
  rewrite Hinst. simpl. rewrite Hffi. reflexivity.
Qed.

(** ** [useInstance]: the selection under the lock *)

Lemma advanced_instances e : instances (advanced e) = instances e.
Proof. unfold advanced. destruct (_ =? _); reflexivity. Qed.

Lemma advanced_UUID e : UUID (advanced e) = UUID e.
Proof. unfold advanced. destruct (_ =? _); reflexivity. Qed.

Lemma useInstance_locked_unfold (s : State) (w : ptr) (e : wasmEnvironment) :
  env_store s !! w = Some e ->
  useInstance_locked w s
  = Go.bind (index (instances e) (instIndex (advanced e)))
      (fun inst => Returns ((instIndex (advanced e), inst),
                            set_env_store (<[w := advanced e]> (env_store s)) s)).
Proof.
  intros He. unfold useInstance_locked, bindM, load_env, store_env, lift, ret.
  rewrite He. simpl. rewrite advanced_instances.
  destruct (index (instances e) (instIndex (advanced e))); reflexivity.
Qed.

Lemma advanced_in_range (e : wasmEnvironment) :
  len (instances e) <= MaxInt ->
  0 <= instIndex e < len (instances e) ->
  instIndex (advanced e) = (instIndex e + 1) mod len (instances e).
Proof.
  intros Hlen Hi. unfold advanced.
  destruct (instIndex e =? len (instances e) - 1) eqn:Hlast; simpl.
  - apply Z.eqb_eq in Hlast.
    replace (instIndex e + 1) with (len (instances e)) by lia.
    rewrite Z.mod_same by lia. reflexivity.
  - apply Z.eqb_neq in Hlast.
    rewrite int_id by (unfold MinInt, MaxInt in *; lia).
    rewrite Z.mod_small by lia. reflexivity.
Qed.

Lemma advanced_out_of_range (e : wasmEnvironment) :
  instIndex e <= MaxInt ->
  instances e = [] \/ len (instances e) <= instIndex e ->
  instIndex (advanced e) < 0 \/ len (instances e) <= instIndex (advanced e).
Proof.
  intros Hmax Hout. unfold advanced.
  destruct (instIndex e =? len (instances e) - 1) eqn:Hlast; simpl.
  - apply Z.eqb_eq in Hlast. right.
    destruct Hout as [Hnil|Hge]; [rewrite Hnil; unfold len; simpl; lia | lia].
  - apply Z.eqb_neq in Hlast.
    destruct Hout as [Hnil|Hge].
    + rewrite Hnil. unfold len. simpl.
      pose proof (int_range (instIndex e + 1)). lia.
    + destruct (Z.eq_dec (instIndex e) MaxInt) as [Heq|Hne].
      * left. rewrite Heq. vm_compute. reflexivity.
      * right. rewrite int_id; [lia|].
        unfold MinInt, MaxInt, len in *. lia.
Qed.

(** C10: [useInstance] reads [w.instances[instIndex]] without a guard.
    With an empty instance list, or with the cursor at or beyond the
    list's length, that read is out of range and the call panics; with
    [0 <= instIndex < len(instances)] the read is in range, the cursor
    becomes [(instIndex + 1) mod len(instances)] and the instance at that
    index is the one selected. *)
Theorem useInstance_requires_instance
    (s : State) (w : ptr) (e : wasmEnvironment) (c : option Ctx)
    (instFunc : ptr -> Z -> M unit) :
  env_store s !! w = Some e ->
  instIndex e <= MaxInt ->
  len (instances e) <= MaxInt ->
  (instances e = [] \/ len (instances e) <= instIndex e ->
     useInstance_locked w s = Panics index_out_of_range /\
     useInstance w c instFunc s = Panics index_out_of_range) /\
  (0 <= instIndex e < len (instances e) ->
     let next := (instIndex e + 1) mod len (instances e) in
     exists inst,
       instances e !! Z.to_nat next = Some inst /\
       0 <= next < len (instances e) /\
       useInstance_locked w s
       = Returns ((next, inst),
                  set_env_store (<[w := set_instIndex next e]> (env_store s)) s)).
Proof.
  intros He Hmax Hlen. rewrite (useInstance_locked_unfold s w e He). split.
  - intros Hout.
    assert (Hlocked : useInstance_locked w s = Panics index_out_of_range).
    { rewrite (useInstance_locked_unfold s w e He).
      rewrite index_out_of_range_panics
        by (apply advanced_out_of_range; assumption).
      reflexivity. }
    split.
    + rewrite index_out_of_range_panics
        by (apply advanced_out_of_range; assumption).
      reflexivity.
    + unfold useInstance, bindM at 1. rewrite Hlocked. reflexivity.
  - intros Hin next.
    assert (Hnext : instIndex (advanced e) = next)
      by (apply advanced_in_range; assumption).
    assert (Hrange : 0 <= next < len (instances e))
      by (apply Z.mod_pos_bound; lia).
    destruct (lookup_lt_is_Some_2 (instances e) (Z.to_nat next)) as [inst Hinst].
    { unfold len in Hrange. lia. }
    exists inst. split; [exact Hinst|]. split; [exact Hrange|].
    rewrite Hnext. rewrite (index_Some _ _ _ (proj1 Hrange) Hinst). simpl.
    do 3 f_equal. unfold advanced in *.
    destruct (instIndex e =? len (instances e) - 1); simpl in Hnext;
      rewrite Hnext; reflexivity.
Qed.

Lemma useInstance_requires_instance_witness :
  useInstance 1%positive None (fun _ _ => ret tt) Sample.empty_pool
  = Panics index_out_of_range /\
  useInstance_locked 1%positive (Sample.state Sample.idle ∅ [])
  = Returns ((0, 1%positive),
             set_env_store (<[1%positive := set_instIndex 0 (Sample.env [1%positive] 0)]>
                              (env_store (Sample.state Sample.idle ∅ [])))
               (Sample.state Sample.idle ∅ [])).
Proof.
  split.
  - destruct (useInstance_requires_instance Sample.empty_pool 1%positive
                (Sample.env [] 0) None (fun _ _ => ret tt)) as [Hout _].
    + vm_compute. reflexivity.
    + vm_compute. discriminate.
    + vm_compute. discriminate.
    + apply Hout. left. reflexivity.
  - destruct (useInstance_requires_instance (Sample.state Sample.idle ∅ []) 1%positive
                (Sample.env [1%positive] 0) None (fun _ _ => ret tt)) as [_ Hin].
    + vm_compute. reflexivity.
    + vm_compute. discriminate.
    + vm_compute. discriminate.
    + destruct Hin as (inst & Hinst & _ & Hsel).
      * vm_compute. split; [discriminate | reflexivity].
      * simpl in Hinst. injection Hinst as <-. exact Hsel.
Defined.

(** ** [setupNewIdentifier] *)

(** What a returned call has done: only the registry can have changed (and
    draws were taken); an identifier handed out was free before the call
    and is bound to the caller's reference after it, all other entries
    being as before. *)
Lemma setupNewIdentifier_loop_Returns (fuel : nat) (envUUID : string) (instIndex : Z) :
  forall (s s' : State) (r : result Z),
    setupNewIdentifier_loop fuel envUUID instIndex s = Returns (r, s') ->
    environments s' = environments s /\
    env_store s' = env_store s /\
    inst_store s' = inst_store s /\
    internalLogger s' = internalLogger s /\
    calls s' = calls s /\
    match r with
    | ok ident =>
      instanceMapper s !! ident = None /\
      instanceMapper s'
      = <[ident := {| EnvUUID := envUUID; InstIndex := instIndex |}]> (instanceMapper s)
    | fail _ => instanceMapper s' = instanceMapper s
    end.
Proof.
  induction fuel as [|fuel IH]; intros s s' r H; simpl in H; [discriminate|].
  unfold bindM, randomIdentifier in H.
  destruct (rand_Reader s) as [|[num|err] rest] eqn:Hdraws; simpl in H.
  - discriminate.
  - unfold instanceMapper_Load in H. simpl in H.
    destruct (instanceMapper s !! int32 (wrap 64 num)) as [taken|] eqn:Hload.
    + apply IH in H. simpl in H. exact H.
    + unfold instanceMapper_Store, ret in H. simpl in H.
      injection H as <- <-. simpl. auto 10.
  - unfold ret in H. injection H as <- <-. simpl. auto 10.
Qed.

Lemma setupNewIdentifier_Returns (envUUID : string) (instIndex : Z)
    (s s' : State) (r : result Z) :
  setupNewIdentifier envUUID instIndex s = Returns (r, s') ->
  environments s' = environments s /\
  env_store s' = env_store s /\
  inst_store s' = inst_store s /\
  internalLogger s' = internalLogger s /\
  calls s' = calls s /\
  match r with
  | ok ident =>
    instanceMapper s !! ident = None /\
    instanceMapper s'
    = <[ident := {| EnvUUID := envUUID; InstIndex := instIndex |}]> (instanceMapper s)
  | fail _ => instanceMapper s' = instanceMapper s
  end.
Proof. unfold setupNewIdentifier. apply setupNewIdentifier_loop_Returns. Qed.



(** ** The round trip through the registry *)

Lemma useInstance_locked_Returns
    (s s1 : State) (w : ptr) (e : wasmEnvironment) (i : Z) (inst : ptr) :
  env_store s !! w = Some e ->
  useInstance_locked w s = Returns ((i, inst), s1) ->
  0 <= i /\
  instances e !! Z.to_nat i = Some inst /\
  environments s1 = environments s /\
  instanceMapper s1 = instanceMapper s /\
  env_store s1 !! w = Some (advanced e).
Proof.
  intros He H. rewrite (useInstance_locked_unfold s w e He) in H.
  destruct (index (instances e) (instIndex (advanced e))) as [x| |] eqn:Hidx;
    simpl in H; try discriminate.
  injection H as <- <- <-.
  apply index_Returns in Hidx. destruct Hidx as [Hrange Hlookup].
  repeat split; try tauto. simpl. apply lookup_insert_eq.
Qed.

(** The round trip as long as nobody else writes the entry of [t]: let [e]
    be an environment of the package (registered under its UUID).  If
    [useInstance] selects the instance [inst] at index [i] and
    [setupNewIdentifier(e.UUID, i)] returns [t], then in every state in
    which the registry entry of [t] is still the one this call stored and
    [e] still has the same instance list, [instanceForIdentifier(t, false)]
    returns [inst], which is [e.instances[i]].  The entry can be replaced
    while [t] is live, by a second call that overlaps with this one, as
    the section on [setupNewIdentifier] run by several goroutines shows. *)
Theorem useInstance_identifier_roundtrip
    (s s1 s2 s3 : State) (w : ptr) (e e3 : wasmEnvironment)
    (i t : Z) (inst : ptr) :
  environments s !! UUID e = Some w ->
  env_store s !! w = Some e ->
  useInstance_locked w s = Returns ((i, inst), s1) ->
  setupNewIdentifier (UUID e) i s1 = Returns (ok t, s2) ->
  instanceMapper s3 !! t = instanceMapper s2 !! t ->
  environments s3 !! UUID e = Some w ->
  env_store s3 !! w = Some e3 ->
  instances e3 = instances e ->
  instances e !! Z.to_nat i = Some inst /\
  instanceForIdentifier t false s3 = Returns (ok inst, s3).
Proof.
  intros Hreg He Hsel Hsetup Hlive Hreg3 He3 Hsame.
  destruct (useInstance_locked_Returns _ _ _ _ _ _ He Hsel)
    as (Hi & Hinst & _ & _ & _).
  split; [exact Hinst|].
  apply setupNewIdentifier_Returns in Hsetup.
  destruct Hsetup as (_ & _ & _ & _ & _ & _ & Hmapper).
  apply instanceForIdentifier_resolves.
  exists {| EnvUUID := UUID e; InstIndex := i |}, w, e3.
  split; [|split; [exact Hreg3|split; [exact He3|]]].
  - rewrite Hlive, Hmapper. apply lookup_insert_eq.
  - simpl. apply instanceAtIndex_in_range; [exact Hi|].
    rewrite Hsame. exact Hinst.
Qed.

Lemma useInstance_identifier_roundtrip_witness :
  exists s1 s2,
    useInstance_locked 1%positive (Sample.state Sample.idle ∅ [ok 7]) = Returns ((0, 1%positive), s1) /\
    setupNewIdentifier "env-1" 0 s1 = Returns (ok 7, s2) /\
    instanceForIdentifier 7 false s2 = Returns (ok 1%positive, s2).
Proof.
  set (s := Sample.state Sample.idle ∅ [ok 7]).
  set (s1 := set_env_store (<[1%positive := advanced (Sample.env [1%positive] 0)]> (env_store s)) s).
  set (s2 := set_instanceMapper
               (<[7 := {| EnvUUID := "env-1"; InstIndex := 0 |}]> (instanceMapper s1))
               (set_rand_Reader [] s1)).
  exists s1, s2.
  assert (Hsel : useInstance_locked 1%positive s = Returns ((0, 1%positive), s1))
    by (vm_compute; reflexivity).
  assert (Hsetup : setupNewIdentifier "env-1" 0 s1 = Returns (ok 7, s2))
    by (vm_compute; reflexivity).
  split; [exact Hsel|]. split; [exact Hsetup|].
  apply (useInstance_identifier_roundtrip s s1 s2 s2 1%positive
           (Sample.env [1%positive] 0) (advanced (Sample.env [1%positive] 0))
           0 7 1%positive).
  - vm_compute. reflexivity.
  - vm_compute. reflexivity.
  - exact Hsel.
  - exact Hsetup.
  - reflexivity.
  - vm_compute. reflexivity.
  - vm_compute. reflexivity.
  - vm_compute. reflexivity.
Defined.

(** Inside [useInstance] itself: [instFunc] is entered in a state in which
    the identifier it is given leads back to the instance it is given,
    for either value of [needsFFIResult] (the staged result was just
    cleared). *)
Lemma useInstance_enters_instFunc
    (s s1 s2 : State) (w : ptr) (e : wasmEnvironment) (c : option Ctx)
    (instFunc : ptr -> Z -> M unit) (i t : Z) (inst : ptr) (x : wasmInstance) :
  environments s !! UUID e = Some w ->
  env_store s !! w = Some e ->
  useInstance_locked w s = Returns ((i, inst), s1) ->
  setupNewIdentifier (UUID e) i s1 = Returns (ok t, s2) ->
  inst_store s2 !! inst = Some x ->
  let entry :=
    set_inst_store (<[inst := set_ctx c (set_ffiResult None x)]> (inst_store s2)) s2 in
  (forall needsFFIResult,
     instanceForIdentifier t needsFFIResult entry = Returns (ok inst, entry)) /\
  useInstance w c instFunc s
  = (instFunc inst t ;;
     do i <- load_inst inst;
     store_inst inst (set_ffiResult None (set_ctx None i)) ;;
     removeIdentifier t ;;
     ret None) entry.
Proof.
  intros Hreg He Hsel Hsetup Hx entry.
  destruct (useInstance_locked_Returns _ _ _ _ _ _ He Hsel)
    as (Hi & Hinst & Henvs1 & _ & He1).
  pose proof (setupNewIdentifier_Returns _ _ _ _ _ Hsetup)
    as (Henvs2 & Hstore2 & _ & _ & _ & _ & Hmapper).
  split.
  - intros needsFFIResult.
    apply (instanceForIdentifier_idle entry t inst (set_ctx c (set_ffiResult None x))).
    + exists {| EnvUUID := UUID e; InstIndex := i |}, w, (advanced e).
      unfold entry. simpl. rewrite Hmapper, Henvs2, Henvs1, Hstore2.
      split; [apply lookup_insert_eq|]. split; [exact Hreg|]. split; [exact He1|].
      apply instanceAtIndex_in_range; [exact Hi|].
      rewrite advanced_instances. exact Hinst.
    + unfold entry. simpl. apply lookup_insert_eq.
    + reflexivity.
  - unfold useInstance, bindM at 1. rewrite Hsel. simpl.
    unfold bindM at 1, load_env. rewrite He1. simpl.
    unfold bindM at 1. rewrite advanced_UUID, Hsetup. simpl.
    unfold bindM at 1, load_inst at 1. rewrite Hx. simpl.
    unfold bindM at 1, store_inst at 1. simpl. reflexivity.
Qed.

(** ** [readMemory] *)

(** The copy loop, started at [index] with the first [index] bytes copied:
    it returns the first [size] bytes of [data] when [data] has that many,
    and otherwise panics at the first index past the end of [data]. *)
Lemma readMemory_loop_spec (size : Z) (data : bytes) :
  size <= MaxInt32 ->
  forall (fuel : nat) (index : Z) (rest : bytes),
    0 <= index <= size ->
    fuel = Z.to_nat (size - index) ->
    length rest = fuel ->
    index <= len data ->
    readMemory_loop fuel index size data (take (Z.to_nat index) data ++ rest)
    = if size <=? len data then Returns (take (Z.to_nat size) data)
      else Panics index_out_of_range.
Proof.
  intros Hsize. unfold MaxInt32 in Hsize.
  induction fuel as [|fuel IH]; intros index rest Hindex Hfuel Hrest Hdata.
  - assert (index = size) by lia. subst index.
    destruct rest; [|discriminate]. rewrite app_nil_r.
    simpl. rewrite int32_id by (unfold MaxInt32; lia).
    rewrite Z.ltb_irrefl.
    replace (size <=? len data) with true by (symmetry; apply Z.leb_le; lia).
    reflexivity.
  - assert (Hlt : index < size) by lia.
    simpl. rewrite int32_id by (unfold MaxInt32; lia).
    replace (index <? size) with true by (symmetry; apply Z.ltb_lt; lia).
    destruct (Z_lt_ge_dec index (len data)) as [Hin|Hout].
    + destruct (lookup_lt_is_Some_2 data (Z.to_nat index)) as [b Hb].
      { unfold len in Hin. lia. }
      rewrite (index_Some _ _ _ (proj1 Hindex) Hb). simpl.
      destruct rest as [|r rest]; [discriminate|].
      assert (Htake : length (take (Z.to_nat index) data) = Z.to_nat index).
      { rewrite length_take. unfold len in Hin. lia. }
      unfold assign.
      replace (0 <=? index) with true by (symmetry; apply Z.leb_le; lia).
      replace (index <? len (take (Z.to_nat index) data ++ r :: rest)) with true.
      2:{ symmetry. apply Z.ltb_lt. unfold len.
          rewrite length_app, Htake. simpl. lia. }
      simpl.
      rewrite int_id by (unfold MinInt, MaxInt; lia).
      replace (<[Z.to_nat index := b]> (take (Z.to_nat index) data ++ r :: rest))
        with (take (Z.to_nat (index + 1)) data ++ rest).
      * apply IH; try lia. simpl in Hrest. lia.
      * rewrite insert_app_r_alt by lia.
        rewrite Htake, Nat.sub_diag. simpl.
        replace (Z.to_nat (index + 1)) with (S (Z.to_nat index)) by lia.
        rewrite (take_S_r _ _ _ Hb), <- app_assoc. reflexivity.
    + rewrite index_out_of_range_panics by lia. simpl.
      replace (size <=? len data) with false by (symmetry; apply Z.leb_gt; lia).
      reflexivity.
Qed.

(** [readMemory] on an instance with a [memory] export, for any [int32]
    arguments: a read inside the memory returns its bytes, anything else
    panics. *)
Lemma readMemory_spec
    (w : wasmInstance) (guest : wasmer_Instance) (memory : bytes) (pointer size : Z) :
  wasmerInst w = Some guest ->
  GetMemory guest "memory" = ok (Some memory) ->
  size <= MaxInt32 ->
  readMemory w pointer size
  = if (0 <=? pointer) && (pointer <=? len memory) then
      if 0 <=? size then
        if pointer + size <=? len memory
        then Returns (take (Z.to_nat size) (drop (Z.to_nat pointer) memory))
        else Panics index_out_of_range
      else Panics makeslice_len_out_of_range
    else Panics slice_bounds_out_of_range.
Proof.
  intros Hw Hmem Hsize. unfold readMemory. rewrite Hw, Hmem.
  unfold slice_from.
  destruct ((0 <=? pointer) && (pointer <=? len memory)) eqn:Hp; simpl; [|reflexivity].
  apply andb_true_iff in Hp. destruct Hp as [Hp0 Hp1].
  apply Z.leb_le in Hp0. apply Z.leb_le in Hp1.
  unfold make. destruct (0 <=? size) eqn:Hs; simpl; [|reflexivity].
  apply Z.leb_le in Hs.
  pose proof (readMemory_loop_spec size (drop (Z.to_nat pointer) memory) Hsize
                (Z.to_nat size) 0 (replicate (Z.to_nat size) Byte.x00)) as Hloop.
  simpl in Hloop. rewrite Hloop.
  - assert (Hlen : len (drop (Z.to_nat pointer) memory) = len memory - pointer).
    { unfold len in *. rewrite length_drop. lia. }
    rewrite Hlen.
    destruct (pointer + size <=? len memory) eqn:Hfit;
      [apply Z.leb_le in Hfit | apply Z.leb_gt in Hfit]; settle_cmp; reflexivity.
  - lia.
  - f_equal. lia.
  - apply length_replicate.
  - unfold len. lia.
Qed.

(** C3, as the code has it: on an instance with a [memory] export and for
    [int32] arguments, a read with [0 <= pointer], [0 <= size] and
    [pointer + size] within the memory returns a copy of exactly those
    [size] bytes; a read with [pointer + size] beyond the memory's length
    returns nothing, truncated or otherwise: it ends in a run-time panic of
    Go's own bounds checks ([readMemory] has no error result). *)
Theorem readMemory_in_bounds_or_panics
    (w : wasmInstance) (guest : wasmer_Instance) (memory : bytes) (pointer size : Z) :
  wasmerInst w = Some guest ->
  GetMemory guest "memory" = ok (Some memory) ->
  0 <= pointer -> 0 <= size <= MaxInt32 ->
  (pointer + size <= len memory ->
     readMemory w pointer size
     = Returns (take (Z.to_nat size) (drop (Z.to_nat pointer) memory)) /\
     len (take (Z.to_nat size) (drop (Z.to_nat pointer) memory)) = size) /\
  (len memory < pointer + size ->
     readMemory w pointer size = Panics index_out_of_range \/
     readMemory w pointer size = Panics slice_bounds_out_of_range).
Proof.
  intros Hw Hmem Hp [Hs Hsize].
  rewrite (readMemory_spec w guest memory pointer size Hw Hmem Hsize).
  split.
  - intros Hfit. settle_cmp. simpl. split; [reflexivity|].
    unfold len in *. rewrite length_take, length_drop. lia.
  - intros Hover. settle_cmp. simpl.
    destruct (pointer <=? len memory); auto.
Qed.

Lemma readMemory_in_bounds_or_panics_witness :
  readMemory Sample.idle 1 2 = Returns [Byte.x0b; Byte.x0c] /\
  (readMemory Sample.idle 3 2 = Panics index_out_of_range \/
   readMemory Sample.idle 3 2 = Panics slice_bounds_out_of_range).
Proof.
  assert (Hfits : 0 <= 2 <= MaxInt32) by (vm_compute; split; discriminate).
  split.
  - destruct (readMemory_in_bounds_or_panics Sample.idle Sample.guest Sample.memory 1 2
                eq_refl eq_refl ltac:(lia) Hfits) as [Hin _].
    destruct Hin as [Hread _]; [vm_compute; discriminate|]. exact Hread.
  - destruct (readMemory_in_bounds_or_panics Sample.idle Sample.guest Sample.memory 3 2
                eq_refl eq_refl ltac:(lia) Hfits) as [_ Hout].
    apply Hout. vm_compute. reflexivity.
Defined.

(** C3 as stated fails: a read of two bytes at offset three of a four-byte
    memory is not answered with an error value; the call panics. *)
Lemma readMemory_overflow_is_a_panic :
  len Sample.memory < 3 + 2 /\
  readMemory Sample.idle 3 2 = Panics index_out_of_range /\
  ~ (exists data, readMemory Sample.idle 3 2 = Returns data).
Proof.
  split; [vm_compute; reflexivity|]. split; [vm_compute; reflexivity|].
  intros [data H]. vm_compute in H. discriminate H.
Qed.

(** Without a [memory] export the call returns an empty slice, whatever
    [size] is. *)
Lemma readMemory_no_memory
    (w : wasmInstance) (guest : wasmer_Instance) (pointer size : Z) :
  wasmerInst w = Some guest ->
  (forall memory, GetMemory guest "memory" <> ok (Some memory)) ->
  readMemory w pointer size = Returns [].
Proof.
  intros Hw Hnone. unfold readMemory. rewrite Hw.
  destruct (GetMemory guest "memory") as [[memory|]|err]; try reflexivity.
  exfalso. apply (Hnone memory). reflexivity.
Qed.

(** ** Identifier uniqueness *)

(** X11: Two calls made one after the other, the first identifier still
    registered, hand out different identifiers, and both entries are in
    the registry afterwards. *)
Lemma setupNewIdentifier_twice_distinct
    (u1 u2 : string) (i1 i2 : Z) (s s1 s2 : State) (t1 t2 : Z) :
  setupNewIdentifier u1 i1 s = Returns (ok t1, s1) ->
  setupNewIdentifier u2 i2 s1 = Returns (ok t2, s2) ->
  t1 <> t2 /\
  instanceMapper s2 !! t1 = Some {| EnvUUID := u1; InstIndex := i1 |} /\
  instanceMapper s2 !! t2 = Some {| EnvUUID := u2; InstIndex := i2 |}.
Proof.
  intros H1 H2.
  apply setupNewIdentifier_Returns in H1. destruct H1 as (_ & _ & _ & _ & _ & _ & Hm1).
  apply setupNewIdentifier_Returns in H2.
  destruct H2 as (_ & _ & _ & _ & _ & Hfree & Hm2).
  assert (Hne : t1 <> t2).
  { intros ->. rewrite Hm1, lookup_insert_eq in Hfree. discriminate. }
  split; [exact Hne|]. rewrite Hm2. split.
  - rewrite lookup_insert_ne by congruence. rewrite Hm1. apply lookup_insert_eq.
  - apply lookup_insert_eq.
Qed.

(** Entries other than the one handed out are never touched by a call. *)
Lemma setupNewIdentifier_keeps_entries
    (u : string) (i : Z) (s s' : State) (r : result Z) (t : Z) (ref : instanceReference) :
  setupNewIdentifier u i s = Returns (r, s') ->
  instanceMapper s !! t = Some ref ->
  instanceMapper s' !! t = Some ref.
Proof.
  intros H Ht. apply setupNewIdentifier_Returns in H.
  destruct H as (_ & _ & _ & _ & _ & Hr). destruct r as [t'|err].
  - destruct Hr as [Hfree ->].
    rewrite lookup_insert_ne; [exact Ht|]. intros ->. congruence.
  - rewrite Hr. exact Ht.
Qed.

(** A goroutine that has returned stays where it is. *)
Lemma run_alone_returned (n : nat) (g : Goroutines.goroutine) (r : result Z) (s : State) :
  Goroutines.at_ g = Goroutines.returned r ->
  Goroutines.run_alone n g s = Returns (g, s).
Proof.
  intros Hg. induction n as [|n IH]; simpl; [reflexivity|].
  unfold bindM, Goroutines.step. rewrite Hg. simpl. exact IH.
Qed.

(** Run with nobody else around, the operation-by-operation reading of
    the loop is [setupNewIdentifier_loop]: three operations per iteration
    are enough to reach the same result in the same state. *)
Lemma run_alone_is_setupNewIdentifier (u : string) (i : Z) :
  forall (fuel n : nat) (s s' : State) (r : result Z),
    (3 * fuel <= n)%nat ->
    setupNewIdentifier_loop fuel u i s = Returns (r, s') ->
    Goroutines.run_alone n (Goroutines.calling u i) s
    = Returns (Goroutines.move (Goroutines.calling u i) (Goroutines.returned r), s').
Proof.
  induction fuel as [|fuel IH]; intros n s s' r Hn H; simpl in H; [discriminate|].
  destruct n as [|[|[|n]]]; try lia.
  unfold bindM, randomIdentifier in H.
  cbn [Goroutines.run_alone]. unfold bindM at 1.
  unfold Goroutines.step at 1. cbn [Goroutines.at_ Goroutines.calling].
  unfold bindM at 1, randomIdentifier.
  destruct (rand_Reader s) as [|[num|err] rest] eqn:Hdraws; simpl in H |- *.
  - discriminate.
  - unfold bindM at 1. unfold Goroutines.step at 1. simpl.
    unfold instanceMapper_Load in H |- *. unfold bindM at 1. simpl in H |- *.
    destruct (instanceMapper s !! int32 (wrap 64 num)) as [taken|] eqn:Hload; simpl.
    + apply (IH (S n)) in H; [|lia]. exact H.
    + unfold instanceMapper_Store, ret in H. simpl in H. injection H as <- <-.
      unfold bindM at 1. unfold Goroutines.step at 1. simpl.
      apply (run_alone_returned n _ (ok (int32 (wrap 64 num)))). reflexivity.
  - unfold ret in H. injection H as <- <-.
    apply (run_alone_returned (S (S n)) _
             (fail (errors_Wrap (errors_Wrap err "failed to rand.Int")
                      "failed to randomIdentifier"))).
    reflexivity.
Qed.

(** C4: two calls of [setupNewIdentifier] running side by side, for the
    instances 0 and 1 of one environment, with the random source
    delivering the token 7 twice.  Both draw and both [Load] (finding no
    entry) before either has done its [Store]: the first call stores and
    returns 7, its entry now live; the second call's [Store] then
    overwrites that entry and returns 7 as well.  Two live calls hold the
    same identifier, and it leads to the second call's instance. *)
Theorem setupNewIdentifier_check_then_store_overwrites :
  let s := Sample.pool_of_two [ok 7; ok 7] in
  let first := Goroutines.calling "env-1" 0 in
  let second := Goroutines.calling "env-1" 1 in
  exists s1 s2,
    Goroutines.run [0; 1; 0; 1; 0]%nat [first; second] s
    = Returns ([Goroutines.move first (Goroutines.returned (ok 7));
                Goroutines.move second (Goroutines.at_Store 7)], s1) /\
    instanceMapper s1 !! 7 = Some {| EnvUUID := "env-1"; InstIndex := 0 |} /\
    Goroutines.run [0; 1; 0; 1; 0; 1]%nat [first; second] s
    = Returns ([Goroutines.move first (Goroutines.returned (ok 7));
                Goroutines.move second (Goroutines.returned (ok 7))], s2) /\
    instanceMapper s2 !! 7 = Some {| EnvUUID := "env-1"; InstIndex := 1 |}.
Proof.
  intros s first second.
  eexists (set_instanceMapper {[ 7 := {| EnvUUID := "env-1"; InstIndex := 0 |} ]}
             (set_rand_Reader [] s)),
          (set_instanceMapper {[ 7 := {| EnvUUID := "env-1"; InstIndex := 1 |} ]}
             (set_rand_Reader [] s)).
  repeat split; vm_compute; reflexivity.
Qed.

(** C1: the round trip does not hold for calls of [useInstance] that
    overlap.  Two calls run on the environment with the instances at the
    addresses 1 and 2 and the cursor at 0, with the random source
    delivering the token 7 twice.  The first call selects index 1 (the
    instance at address 2), the second call, once the first has released
    [w.lock], selects index 0 (the instance at address 1); each holds the
    semaphore of its own instance, so both are inside [setupNewIdentifier]
    together.  Both draw and both [Load] before either has done its
    [Store].  After the first call's [Store] it has returned 7, and 7 leads
    to the first call's instance.  After the second call's [Store], 7 is
    still in the registry, the first call has not reached
    [removeIdentifier], no instance was added or removed, and
    [instanceForIdentifier(7, false)] returns the instance at address 1:
    the second call's instance, not the one the first call selected. *)
Theorem useInstance_roundtrip_lost_when_calls_overlap :
  let s := Sample.pool_of_two [ok 7; ok 7] in
  let first := Goroutines.calling "env-1" 1 in
  let second := Goroutines.calling "env-1" 0 in
  exists sA sB sC sD e,
    useInstance_locked 1%positive s = Returns ((1, 2%positive), sA) /\
    useInstance_locked 1%positive sA = Returns ((0, 1%positive), sB) /\
    Goroutines.run [0; 1; 0; 1; 0]%nat [first; second] sB
    = Returns ([Goroutines.move first (Goroutines.returned (ok 7));
                Goroutines.move second (Goroutines.at_Store 7)], sC) /\
    instanceForIdentifier 7 false sC = Returns (ok 2%positive, sC) /\
    Goroutines.run [1]%nat
      [Goroutines.move first (Goroutines.returned (ok 7));
       Goroutines.move second (Goroutines.at_Store 7)] sC
    = Returns ([Goroutines.move first (Goroutines.returned (ok 7));
                Goroutines.move second (Goroutines.returned (ok 7))], sD) /\
    is_Some (instanceMapper sD !! 7) /\
    env_store sD !! 1%positive = Some e /\
    instances e = [1%positive; 2%positive] /\
    instances e !! 1%nat = Some 2%positive /\
    instanceForIdentifier 7 false sD = Returns (ok 1%positive, sD).
Proof.
  intros s first second.
  set (e0 := Sample.env [1%positive; 2%positive] 0).
  set (sA := set_env_store (<[1%positive := advanced e0]> (env_store s)) s).
  set (sB := set_env_store (<[1%positive := advanced (advanced e0)]> (env_store sA)) sA).
  set (sC := set_instanceMapper {[ 7 := {| EnvUUID := "env-1"; InstIndex := 1 |} ]}
               (set_rand_Reader [] sB)).
  set (sD := set_instanceMapper {[ 7 := {| EnvUUID := "env-1"; InstIndex := 0 |} ]}
               (set_rand_Reader [] sB)).
  exists sA, sB, sC, sD, (advanced (advanced e0)).
  split; [vm_compute; reflexivity|].
  split; [vm_compute; reflexivity|].
  split; [vm_compute; reflexivity|].
  split; [vm_compute; reflexivity|].
  split; [vm_compute; reflexivity|].
  split; [exists {| EnvUUID := "env-1"; InstIndex := 0 |}; vm_compute; reflexivity|].
  split; [vm_compute; reflexivity|].
  split; [vm_compute; reflexivity|].
  split; vm_compute; reflexivity.
Qed.

(** ** [addInstance] *)

(** [internals] returns; it leaves the instance list, the instances and
    the record of calls alone. *)
Lemma internals_Returns (W : wasmer) (s : State) (w : ptr) (e : wasmEnvironment) :
  env_store s !! w = Some e ->
  exists r s1 e1,
    internals W w s = Returns (r, s1) /\
    env_store s1 !! w = Some e1 /\
    instances e1 = instances e /\
    inst_store s1 = inst_store s /\
    calls s1 = calls s.
Proof.
  intros He. unfold internals, bindM, load_env. rewrite He. simpl.
  destruct (module e) as [m|] eqn:Hm.
  { eexists _, s, e. split; [reflexivity|]. auto. }
  destruct (Bytes (ref e)) as [moduleBytes|err].
  2:{ eexists _, s, e. split; [reflexivity|]. auto. }
  destruct (NewModule W _ moduleBytes) as [mod_|err].
  2:{ eexists _, s, e. split; [reflexivity|]. auto. }
  destruct (NewWasiStateBuilder_Finalize W (Name (ref e))) as [env|err].
  2:{ eexists _, s, e. split; [reflexivity|]. auto. }
  simpl. eexists _, _, _. split; [reflexivity|]. simpl.
  split; [apply lookup_insert_eq|]. repeat split.
Qed.

Lemma fresh_inst_free (s : State) : inst_store s !! fresh (dom (inst_store s)) = None.
Proof. apply not_elem_of_dom, is_fresh. Qed.

(** C7: [addInstance] on an environment returns, and what it does is fixed
    by what can fail.  If [internals] (compilation) or [NewInstance]
    (instantiation) fails, it returns that error wrapped, has called
    nothing, and the instance list and the instances are unchanged.
    Otherwise the hooks the instance exports are the start hook (the WASI
    start entry, or else [_start]) followed by [init].  If each of them
    returns no error, every one of them was called, in that order,
    [addInstance] returns no error and exactly one new instance is
    appended.  If one of them fails, the hooks before it and the failing
    one were called, in that order and nothing after it, the error is
    returned wrapped, and the instance list and the instances are
    unchanged. *)
Theorem addInstance_protocol (W : wasmer) (s : State) (w : ptr) (e : wasmEnvironment) :
  env_store s !! w = Some e ->
  exists r s' e' r1 s1,
    addInstance W w s = Returns (r, s') /\
    env_store s' !! w = Some e' /\
    internals W w s = Returns (r1, s1) /\
    match r1 with
    | fail err =>
      r = Some (errors_Wrap err "failed to ModuleBytes") /\
      calls s' = calls s /\ instances e' = instances e /\ inst_store s' = inst_store s
    | ok (module, _, imports) =>
      match NewInstance W module imports with
      | fail err =>
        r = Some (errors_Wrap err "failed to NewInstance") /\
        calls s' = calls s /\ instances e' = instances e /\
        inst_store s' = inst_store s
      | ok inst =>
        let hooks := start_hook inst ++ init_hook inst in
        (Forall (fun hook => snd hook = None) hooks ->
           r = None /\
           calls s' = calls s ++ map fst hooks /\
           inst_store s !! fresh (dom (inst_store s)) = None /\
           inst_store s'
           = <[fresh (dom (inst_store s)) := new_wasmInstance inst]> (inst_store s) /\
           instances e' = instances e ++ [fresh (dom (inst_store s))]) /\
        (forall before name err after,
           hooks = before ++ (name, Some err) :: after ->
           Forall (fun hook => snd hook = None) before ->
           r = Some (errors_Wrap err ("failed to " +:+ name)) /\
           calls s' = calls s ++ map fst before ++ [name] /\
           instances e' = instances e /\ inst_store s' = inst_store s)
      end
    end.
Proof.
  intros He.
  destruct (internals_Returns W s w e He)
    as (r1 & s1 & e1 & Hint & He1 & Hinsts & Hstore & Hcalls).
  unfold addInstance, bindM at 1. rewrite Hint. simpl.
  destruct r1 as [[[module st] imports]|err].
  2:{ eexists _, s1, e1, _, _. split; [reflexivity|]. split; [exact He1|].
      split; [reflexivity|]. simpl. auto. }
  destruct (NewInstance W module imports) as [inst|err] eqn:Hnew.
  2:{ eexists _, s1, e1, _, _. split; [reflexivity|]. split; [exact He1|].
      split; [reflexivity|]. simpl. rewrite Hnew. auto. }
  unfold call, note_call, bindM, ret, get, store_inst, load_env, store_env.
  destruct (GetWasiStartFunction inst) as [[[[wasiStartErr|]]|]|wasiErr] eqn:Hwasi;
    destruct (GetFunction inst "_start") as [[[[startErr|]]|]|startLookupErr] eqn:Hstart;
    destruct (GetFunction inst "init") as [[[[initErr|]]|]|initLookupErr] eqn:Hinit;
    simpl; rewrite ?He1; simpl.
  all: eexists _, _, _, _, _; (split; [reflexivity|]); simpl.
  all: (split; [first [exact He1 | apply lookup_insert_eq]|]).
  all: (split; [reflexivity|]); simpl; rewrite ?Hnew; simpl.
  all: unfold start_hook, init_hook; rewrite Hwasi, ?Hstart, Hinit; simpl.
  all: split;
    [ intros Hall;
      first
        [ (* a hook failed: the premise does not hold *)
          exfalso;
          repeat match goal with
                 | H : Forall _ (_ :: _) |- _ =>
                   apply Forall_cons in H; destruct H as [? H]
                 end;
          simpl in *; discriminate
        | (* every hook succeeded *)
          rewrite Hcalls, Hstore, Hinsts, <- ?app_assoc, ?app_nil_r;
          split; [reflexivity|]; split; [reflexivity|];
          split; [apply fresh_inst_free|]; split; reflexivity ]
    | intros before name err after Heq Hbefore;
      destruct before as [|[n0 o0] [|[n1 o1] [|[n2 o2] before]]];
      simpl in Heq; try discriminate Heq;
      injection Heq as Heq; subst;
      repeat match goal with
             | H : Forall _ (_ :: _) |- _ =>
               apply Forall_cons in H; destruct H as [? H]
             end;
      simpl in *; try discriminate;
      rewrite ?Hcalls, <- ?app_assoc; simpl; auto ].
Qed.

Lemma addInstance_protocol_witness :
  (exists s' e',
     addInstance (Sample.hooked_engine None) 1%positive Sample.empty_pool
     = Returns (None, s') /\
     calls s' = ["wasiStart"; "init"]%string /\
     env_store s' !! 1%positive = Some e' /\ instances e' = [1%positive]) /\
  (exists s' e',
     addInstance (Sample.hooked_engine (Some (errors_New "unreachable")))
       1%positive Sample.empty_pool
     = Returns (Some (errors_Wrap (errors_New "unreachable") "failed to init"), s') /\
     calls s' = ["wasiStart"; "init"]%string /\
     env_store s' !! 1%positive = Some e' /\ instances e' = []).
Proof.
  split.
  - destruct (addInstance_protocol (Sample.hooked_engine None) Sample.empty_pool
                1%positive (Sample.env [] 0) eq_refl)
      as (r & s' & e' & r1 & s1 & Hadd & He' & Hint & Hpost).
    vm_compute in Hint. injection Hint as <- <-. cbn in Hpost.
    destruct Hpost as [Hok _].
    destruct Hok as (-> & Hcalls & _ & _ & Hinsts); [repeat constructor|].
    exists s', e'. split; [exact Hadd|]. split; [exact Hcalls|].
    split; [exact He'|]. exact Hinsts.
  - destruct (addInstance_protocol (Sample.hooked_engine (Some (errors_New "unreachable")))
                Sample.empty_pool 1%positive (Sample.env [] 0) eq_refl)
      as (r & s' & e' & r1 & s1 & Hadd & He' & Hint & Hpost).
    vm_compute in Hint. injection Hint as <- <-. cbn in Hpost.
    destruct Hpost as [_ Hfail].
    destruct (Hfail [("wasiStart"%string, None)] "init"%string
                (errors_New "unreachable") [] eq_refl)
      as (-> & Hcalls & Hinsts & _); [repeat constructor|].
    exists s', e'. split; [exact Hadd|]. split; [exact Hcalls|].
    split; [exact He'|]. exact Hinsts.
Defined.

(** ** [graphql_query] with an identifier that is not registered *)

(** C8, as the code has it: a host call with an identifier that has no
    registry entry returns -1, invokes no capability (nothing is called,
    nothing is staged, the registry is as before) and writes one entry to
    the internal logger, through [Logger.Error] and so at error level,
    whose text names potential malicious activity. *)
Theorem graphql_query_unknown_identifier
    (s : State) (endpointPointer endpointSize queryPointer querySize identifier : Z) :
  instanceMapper s !! identifier = None ->
  exists s',
    Api.graphql_query endpointPointer endpointSize queryPointer querySize identifier s
    = Returns (-1, s') /\
    calls s' = calls s /\
    inst_store s' = inst_store s /\
    instanceMapper s' = instanceMapper s /\
    internalLogger s'
    = internalLogger s ++
      [(LogLevelError,
        errors_Wrap (errors_New "instance does not exist")
          "[rwasm] alert: invalid identifier used, potential malicious activity")].
Proof.
  intros Hunknown. eexists. unfold Api.graphql_query, bindM at 1.
  rewrite (instanceForIdentifier_unknown s identifier true Hunknown). simpl.
  split; [reflexivity|]. simpl. auto.
Qed.

Lemma graphql_query_unknown_identifier_witness :
  exists s',
    Api.graphql_query 0 0 0 0 5 (Sample.state Sample.idle ∅ []) = Returns (-1, s') /\
    calls s' = [] /\
    map fst (internalLogger s') = [LogLevelError].
Proof.
  destruct (graphql_query_unknown_identifier (Sample.state Sample.idle ∅ []) 0 0 0 0 5
              (lookup_empty 5)) as (s' & Hcall & Hcalls & _ & _ & Hlog).
  exists s'. split; [exact Hcall|]. split; [exact Hcalls|].
  rewrite Hlog. reflexivity.
Defined.

(** C8 as stated fails on the level: for the unregistered identifier 5 the
    call returns -1 and nothing it logged is at warning level. *)
Lemma graphql_query_logs_no_warning :
  exists s',
    Api.graphql_query 0 0 0 0 5 (Sample.state Sample.idle ∅ []) = Returns (-1, s') /\
    internalLogger s' <> [] /\
    Forall (fun entry => fst entry <> LogLevelWarn) (internalLogger s').
Proof.
  eexists. split; [vm_compute; reflexivity|]. simpl.
  split; [discriminate|]. repeat constructor. discriminate.
Qed.

(** ** [Listen] *)

(** C9, as the code has it: the handler hands exactly one message to
    [pod.ReplyTo], in reply to the inbound one.  Its topic is
    [reactr.runerr] when the job's error is (or wraps) a [RunErr] and
    [reactr.joberr] for every other error; without an error it is
    [reactr.nil] with an empty body for a nil result, [reactr.result] with
    the bytes, the string's bytes or the JSON marshalling for a value that
    marshals, [reactr.joberr] for a value that does not marshal, and for a
    result that is itself a bus message that message is the reply, under
    its own topic. *)
Theorem Listen_reply_classification
    (RunErr_Error : RunErr -> string) (Do_Then : Rt.Job -> Rt.any * option error)
    (msgType uuid : string) (msg : Rt.Message) :
  exists reply,
    Rt.replies (Rt.Listen_onMessage RunErr_Error Do_Then msgType uuid msg) = [reply] /\
    Rt.ReplyTo reply = Rt.UUID msg /\
    match Do_Then (Rt.NewJob msgType (Rt.Data msg)) with
    | (_, Some err) =>
      Rt.ParentID reply = Rt.ParentID msg /\
      Rt.Type_ reply = match errors_As_RunErr err with
                       | Some _ => Rt.MsgTypeReactrRunErr
                       | None => Rt.MsgTypeReactrJobErr
                       end
    | (Rt.any_nil, None) =>
      Rt.ParentID reply = Rt.ParentID msg /\
      Rt.Type_ reply = Rt.MsgTypeReactrNilResult /\ Rt.Data reply = []
    | (Rt.any_Message resultMsg, None) =>
      reply = Rt.SetReplyTo (Rt.UUID msg) resultMsg
    | (Rt.any_bytes b, None) =>
      Rt.ParentID reply = Rt.ParentID msg /\
      Rt.Type_ reply = Rt.MsgTypeReactrResult /\ Rt.Data reply = b
    | (Rt.any_string str, None) =>
      Rt.ParentID reply = Rt.ParentID msg /\
      Rt.Type_ reply = Rt.MsgTypeReactrResult /\
      Rt.Data reply = String.list_byte_of_string str
    | (Rt.any_other v, None) =>
      Rt.ParentID reply = Rt.ParentID msg /\
      match Rt.json_Marshal v with
      | ok resultJSON =>
        Rt.Type_ reply = Rt.MsgTypeReactrResult /\ Rt.Data reply = resultJSON
      | fail _ => Rt.Type_ reply = Rt.MsgTypeReactrJobErr
      end
    end.
Proof.
  unfold Rt.Listen_onMessage. cbv beta zeta.
  destruct (Do_Then (Rt.NewJob msgType (Rt.Data msg))) as [result [err|]].
  - destruct (errors_As_RunErr err); destruct result;
      eexists; (split; [reflexivity|]); simpl; repeat split.
  - destruct result as [|resultMsg|b|str|v];
      try (eexists; (split; [reflexivity|]); simpl; repeat split; fail).
    destruct (Rt.json_Marshal v);
      eexists; (split; [reflexivity|]); simpl; repeat split.
Qed.

(** C9 as stated fails in two places: a job that returns a bus message is
    answered under that message's own topic, which is none of the four
    [reactr] topics, and a job that returns a value [json.Marshal] rejects
    is answered under [reactr.joberr] although the job returned no error. *)
Lemma Listen_reply_outside_the_four_topics :
  (exists reply,
     Rt.replies (Rt.Listen_onMessage Sample.RunErr_Error
                   (fun _ => (Rt.any_Message Sample.custom, None))
                   "compute" "msg-3" Sample.inbound) = [reply] /\
     Rt.Type_ reply = "custom.topic"%string /\
     ~ In (Rt.Type_ reply)
         [Rt.MsgTypeReactrRunErr; Rt.MsgTypeReactrJobErr;
          Rt.MsgTypeReactrNilResult; Rt.MsgTypeReactrResult]) /\
  (exists reply,
     Rt.replies (Rt.Listen_onMessage Sample.RunErr_Error
                   (fun _ => (Rt.any_other Sample.unmarshallable, None))
                   "compute" "msg-3" Sample.inbound) = [reply] /\
     Rt.Type_ reply = Rt.MsgTypeReactrJobErr).
Proof.
  split; eexists; (split; [reflexivity|]); simpl.
  - split; [reflexivity|]. intros [H|[H|[H|[H|[]]]]]; discriminate H.
  - reflexivity.
Qed.

(** The reply shape of the bus scenario: a [compute] message with body
    ["5"] whose job returns the bytes ["25"] is answered on
    [reactr.result] with that body, the inbound message's parent ID and a
    reply-to naming the inbound message. *)
Example Listen_reply_shape :
  Rt.replies (Rt.Listen_onMessage Sample.RunErr_Error
                (fun _ => (Rt.any_bytes [Byte.x32; Byte.x35], None))
                "compute" "msg-3" Sample.inbound)
  = [ {| Rt.UUID := "msg-3"; Rt.ParentID := "parent-1"; Rt.ReplyTo := "msg-1";
         Rt.Type_ := "reactr.result"; Rt.Data := [Byte.x32; Byte.x35] |} ].
Proof. reflexivity. Qed.

(** ** Environments stay registered *)

Lemma newEnvironment_registered
    (uuid : string) (ref : WasmModuleRef) (s s' : State) (w : ptr) :
  newEnvironment uuid ref s = Returns (w, s') ->
  registered s' w /\
  env_store s !! w = None /\
  exists e, env_store s' !! w = Some e /\ UUID e = uuid /\
            instances e = [] /\ instIndex e = 0.
Proof.
  unfold newEnvironment. intros [= <- <-]. simpl. split; [|split].
  - eexists. simpl. split; apply lookup_insert_eq.
  - apply not_elem_of_dom, is_fresh.
  - eexists. split; [apply lookup_insert_eq|]. auto.
Qed.

(** A new environment under an unused UUID leaves the others registered. *)
Lemma newEnvironment_keeps_registered
    (uuid : string) (ref : WasmModuleRef) (s s' : State) (w w0 : ptr) :
  environments s !! uuid = None ->
  newEnvironment uuid ref s = Returns (w, s') ->
  registered s w0 -> registered s' w0.
Proof.
  unfold newEnvironment. intros Hunused [= <- <-] (e0 & He0 & Hreg0).
  exists e0. simpl.
  assert (Hw : fresh (dom (env_store s)) <> w0).
  { intros Heq. pose proof (is_fresh (dom (env_store s))) as Hfresh.
    rewrite Heq in Hfresh. apply Hfresh, elem_of_dom. eauto. }
  rewrite !lookup_insert_ne; [auto | congruence | exact Hw].
Qed.

Lemma internals_frame (W : wasmer) (s s1 : State) (w : ptr) (e : wasmEnvironment)
    (r : result (option wasmer_Module * option wasmer_Store * option wasmer_ImportObject)) :
  env_store s !! w = Some e ->
  internals W w s = Returns (r, s1) ->
  environments s1 = environments s /\
  instanceMapper s1 = instanceMapper s /\
  (exists e1, env_store s1 !! w = Some e1 /\ UUID e1 = UUID e /\
              instIndex e1 = instIndex e) /\
  (forall w', w' <> w -> env_store s1 !! w' = env_store s !! w').
Proof.
  intros He. unfold internals, bindM, load_env. rewrite He. simpl.
  destruct (module e) as [m|];
    [|destruct (Bytes (ref e)) as [moduleBytes|err];
      [destruct (NewModule W _ moduleBytes) as [mod_|err];
       [destruct (NewWasiStateBuilder_Finalize W (Name (ref e))) as [env|err]|]|]];
    simpl; intros [= <- <-]; simpl; repeat split; eauto.
  - eexists. split; [apply lookup_insert_eq|]. auto.
  - intros w' Hw'. apply lookup_insert_ne. congruence.
Qed.

(** [addInstance] touches neither [environments] nor the registry, keeps
    the environment's UUID and cursor, and leaves other environments
    alone. *)
Lemma addInstance_frame (W : wasmer) (s s' : State) (w : ptr) (e : wasmEnvironment)
    (r : option error) :
  env_store s !! w = Some e ->
  addInstance W w s = Returns (r, s') ->
  environments s' = environments s /\
  instanceMapper s' = instanceMapper s /\
  (exists e', env_store s' !! w = Some e' /\ UUID e' = UUID e /\
              instIndex e' = instIndex e) /\
  (forall w', w' <> w -> env_store s' !! w' = env_store s !! w').
Proof.
  intros He.
  destruct (internals_Returns W s w e He) as (r1 & s1 & e1 & Hint & _).
  destruct (internals_frame W s s1 w e r1 He Hint)
    as (Henvs & Hmapper & (e1' & He1 & Huuid & Hcursor) & Hothers).
  unfold addInstance, bindM at 1. rewrite Hint. simpl.
  assert (Hkeep : forall s2,
            s2 = s1 ->
            environments s2 = environments s /\
            instanceMapper s2 = instanceMapper s /\
            (exists e', env_store s2 !! w = Some e' /\ UUID e' = UUID e /\
                        instIndex e' = instIndex e) /\
            (forall w', w' <> w -> env_store s2 !! w' = env_store s !! w')).
  { intros s2 ->. eauto 10. }
  destruct r1 as [[[module st] imports]|err];
    [|intros [= <- <-]; apply Hkeep; reflexivity].
  destruct (NewInstance W module imports) as [inst|err];
    [|intros [= <- <-]; apply Hkeep; reflexivity].
  unfold call, note_call, bindM, ret, get, store_inst, load_env, store_env.
  destruct (GetWasiStartFunction inst) as [[[[wasiStartErr|]]|]|wasiErr];
    destruct (GetFunction inst "_start") as [[[[startErr|]]|]|startLookupErr];
    destruct (GetFunction inst "init") as [[[[initErr|]]|]|initLookupErr];
    simpl; rewrite ?He1; simpl; intros [= <- <-]; simpl.
  all: split; [exact Henvs|]; split; [exact Hmapper|].
  all: split;
    [ first [ exists e1'; split; [exact He1|]; split; assumption
            | eexists; split; [apply lookup_insert_eq|]; split; assumption ]
    | first [ exact Hothers
            | intros w' Hw'; rewrite lookup_insert_ne by congruence;
              apply Hothers; exact Hw' ] ].
Qed.

(** X3: Whether [addInstance] succeeds or fails, every environment that was
    registered under its UUID still is: the call changes neither a UUID
    nor the table of environments. *)
Lemma addInstance_keeps_registered (W : wasmer) (s s' : State) (w w0 : ptr)
    (e : wasmEnvironment) (r : option error) :
  env_store s !! w = Some e ->
  addInstance W w s = Returns (r, s') ->
  registered s w0 -> registered s' w0.
Proof.
  intros He Hadd (e0 & He0 & Hreg0).
  destruct (addInstance_frame W s s' w e r He Hadd)
    as (Henvs & _ & (e' & He' & Huuid & _) & Hothers).
  destruct (decide (w0 = w)) as [->|Hne].
  - exists e'. split; [exact He'|]. rewrite Henvs, Huuid.
    rewrite He in He0. injection He0 as <-. exact Hreg0.
  - exists e0. rewrite Hothers by exact Hne. rewrite Henvs. auto.
Qed.

(** ** [removeInstance] *)

(** Removing from an empty pool is a no-op. *)
Lemma removeInstance_empty (s : State) (w : ptr) (e : wasmEnvironment) :
  env_store s !! w = Some e -> instances e = [] ->
  removeInstance w s = Returns (None, s).
Proof.
  intros He Hnil. unfold removeInstance, bindM, load_env. rewrite He. simpl.
  rewrite Hnil. reflexivity.
Qed.

(** Shrinking the sample pool of one to nothing leaves a pool that
    [useInstance] cannot serve. *)
Example removeInstance_then_useInstance :
  exists s',
    removeInstance 1%positive (Sample.state Sample.idle ∅ [ok 7]) = Returns (None, s') /\
    (exists e', env_store s' !! 1%positive = Some e' /\
                instances e' = [] /\ instIndex e' = -1) /\
    useInstance 1%positive None (fun _ _ => ret tt) s' = Panics index_out_of_range.
Proof.
  eexists. split; [vm_compute; reflexivity|]. split.
  - eexists. split; [vm_compute; reflexivity|]. split; reflexivity.
  - vm_compute. reflexivity.
Qed.

(** A pool built from nothing: a new environment, one instance added, one
    call made.  Inside the call the identifier leads back to the instance
    in use; after it the identifier is gone. *)
Example useInstance_end_to_end :
  let probe (inst : ptr) (ident : Z) : M unit :=
    do r <- instanceForIdentifier ident true;
    note_call (match r with
               | ok found => if decide (found = inst) then "same instance" else "other instance"
               | fail _ => "no instance"
               end) in
  let session :=
    do w <- newEnvironment "env-1" {| Name := "hello"; Bytes := ok [Byte.x00] |};
    addInstance Sample.engine w ;;
    useInstance w None probe in
  exists s',
    session (set_rand_Reader [ok 7] (set_environments ∅ (set_env_store ∅ Sample.empty_pool)))
    = Returns (None, s') /\
    calls s' = ["init"; "same instance"]%string /\
    instanceMapper s' = ∅.
Proof.
  eexists. split; [vm_compute; reflexivity|]. split; vm_compute; reflexivity.
Qed.

(** ** Revocation *)

(** Once [removeIdentifier] has run, the identifier leads nowhere. *)
Lemma removeIdentifier_revokes (s s' : State) (ident : Z) (needsFFIResult : bool) :
  removeIdentifier ident s = Returns (tt, s') ->
  instanceForIdentifier ident needsFFIResult s'
  = Returns (fail (errors_New "instance does not exist"), s').
Proof.
  unfold removeIdentifier, instanceMapper_Delete. intros [= <-].
  apply instanceForIdentifier_unknown. simpl. apply lookup_delete_eq.
Qed.

(** ** Writing guest memory *)

Lemma copy_length {A} (dst src : list A) : length (Glue.copy dst src) = length dst.
Proof. unfold Glue.copy. rewrite length_app, length_take, length_drop. lia. Qed.

(** The memory after a write at [pointer]. *)
Lemma writeMemoryAtLocation_Returns
    (w : wasmInstance) (guest : wasmer_Instance) (memory data : bytes) (pointer : Z) :
  wasmerInst w = Some guest ->
  GetMemory guest "memory" = ok (Some memory) ->
  0 <= pointer <= len memory ->
  Glue.writeMemoryAtLocation w pointer data
  = Returns (Glue.set_wasmerInst
               (Some (Glue.with_memory
                        (take (Z.to_nat pointer) memory
                         ++ Glue.copy (drop (Z.to_nat pointer) memory) data) guest)) w).
Proof.
  intros Hw Hmem Hp. unfold Glue.writeMemoryAtLocation. rewrite Hw, Hmem.
  unfold slice_from. settle_cmp. reflexivity.
Qed.

Lemma writeMemoryAtLocation_read_back
    (w : wasmInstance) (guest : wasmer_Instance) (memory data : bytes) (pointer : Z) :
  wasmerInst w = Some guest ->
  GetMemory guest "memory" = ok (Some memory) ->
  0 <= pointer ->
  pointer + len data <= len memory ->
  len data <= MaxInt32 ->
  exists w',
    Glue.writeMemoryAtLocation w pointer data = Returns w' /\
    readMemory w' pointer (len data) = Returns data.
Proof.
  intros Hw Hmem Hp Hfit Hsize.
  assert (Hlen : 0 <= len data) by (unfold len; lia).
  eexists. split.
  { apply (writeMemoryAtLocation_Returns w guest memory data pointer Hw Hmem). lia. }
  set (memory' := take (Z.to_nat pointer) memory
                  ++ Glue.copy (drop (Z.to_nat pointer) memory) data).
  assert (Hcopy : Glue.copy (drop (Z.to_nat pointer) memory) data
                  = data ++ drop (length data) (drop (Z.to_nat pointer) memory)).
  { unfold Glue.copy. f_equal. apply take_ge. rewrite length_drop. unfold len in *. lia. }
  assert (Htake : length (take (Z.to_nat pointer) memory) = Z.to_nat pointer).
  { rewrite length_take. unfold len in *. lia. }
  assert (Hlen' : len memory' = len memory).
  { unfold memory', len. rewrite length_app, copy_length, length_take, length_drop.
    unfold len in *. lia. }
  rewrite (readMemory_spec _ (Glue.with_memory memory' guest) memory' pointer (len data));
    [| reflexivity | reflexivity | exact Hsize].
  rewrite Hlen'. settle_cmp. simpl. f_equal.
  unfold memory'. rewrite Hcopy.
  rewrite drop_app_length' by (symmetry; exact Htake).
  unfold len. rewrite Nat2Z.id. apply take_app_length.
Qed.

(** X16: Bytes written inside the memory are the bytes read back from the same
    place. *)
Theorem writeMemoryAtLocation_readMemory
    (w : wasmInstance) (guest : wasmer_Instance) (memory data : bytes) (pointer : Z) :
  wasmerInst w = Some guest ->
  GetMemory guest "memory" = ok (Some memory) ->
  0 <= pointer ->
  pointer + len data <= len memory ->
  len data <= MaxInt32 ->
  exists w',
    Glue.writeMemoryAtLocation w pointer data = Returns w' /\
    readMemory w' pointer (len data) = Returns data.
Proof. apply writeMemoryAtLocation_read_back. Qed.

Lemma writeMemoryAtLocation_readMemory_witness :
  exists w',
    Glue.writeMemoryAtLocation Sample.idle 1 [Byte.xff; Byte.xfe] = Returns w' /\
    readMemory w' 1 2 = Returns [Byte.xff; Byte.xfe].
Proof.
  assert (Hfit : 1 + len [Byte.xff; Byte.xfe] <= len Sample.memory)
    by (vm_compute; discriminate).
  assert (Hsize : len [Byte.xff; Byte.xfe] <= MaxInt32) by (vm_compute; discriminate).
  exact (writeMemoryAtLocation_readMemory Sample.idle Sample.guest Sample.memory
           [Byte.xff; Byte.xfe] 1 eq_refl eq_refl ltac:(lia) Hfit Hsize).
Defined.

(** X17: A write never changes the size of the memory, touches no byte outside
    the written range, and writes exactly the bytes that fit: data that
    reaches past the end of the memory is cut there, without a panic and
    without an error. *)
Theorem writeMemoryAtLocation_writes_what_fits
    (w : wasmInstance) (guest : wasmer_Instance) (memory data : bytes) (pointer : Z) :
  wasmerInst w = Some guest ->
  GetMemory guest "memory" = ok (Some memory) ->
  0 <= pointer <= len memory ->
  exists w' guest' memory',
    Glue.writeMemoryAtLocation w pointer data = Returns w' /\
    wasmerInst w' = Some guest' /\
    GetMemory guest' "memory" = ok (Some memory') /\
    length memory' = length memory /\
    (forall i, (i < Z.to_nat pointer)%nat -> memory' !! i = memory !! i) /\
    (forall k, (k < length data)%nat ->
               (Z.to_nat pointer + k < length memory)%nat ->
               memory' !! (Z.to_nat pointer + k)%nat = data !! k) /\
    (forall i, (Z.to_nat pointer + length data <= i)%nat ->
               memory' !! i = memory !! i).
Proof.
  intros Hw Hmem Hp.
  set (P := Z.to_nat pointer).
  assert (HP : (P <= length memory)%nat) by (unfold P, len in *; lia).
  assert (Htake : length (take P memory) = P) by (rewrite length_take; lia).
  eexists _, _, _. split.
  { apply (writeMemoryAtLocation_Returns w guest memory data pointer Hw Hmem Hp). }
  split; [reflexivity|]. split; [reflexivity|]. fold P.
  assert (Hsize : length (take P memory ++ Glue.copy (drop P memory) data)
                  = length memory).
  { rewrite length_app, copy_length, Htake, length_drop. lia. }
  split; [exact Hsize|]. split; [|split].
  - intros i Hi. rewrite lookup_app_l by lia. apply lookup_take_lt. exact Hi.
  - intros k Hk Hin. rewrite lookup_app_r by lia.
    rewrite Htake. replace (P + k - P)%nat with k by lia.
    unfold Glue.copy. rewrite lookup_app_l.
    + apply lookup_take_lt. rewrite length_drop. lia.
    + rewrite length_take, length_drop. lia.
  - intros i Hi.
    destruct (Nat.lt_ge_cases i (length memory)) as [Hlt|Hge].
    + rewrite lookup_app_r by lia. rewrite Htake.
      unfold Glue.copy. rewrite lookup_app_r.
      * rewrite length_take, length_drop, !lookup_drop. f_equal. lia.
      * rewrite length_take, length_drop. lia.
    + rewrite (lookup_ge_None_2 memory i Hge).
      apply lookup_ge_None_2. rewrite Hsize. exact Hge.
Qed.

Lemma writeMemoryAtLocation_writes_what_fits_witness :
  exists w' guest',
    Glue.writeMemoryAtLocation Sample.idle 3 [Byte.xff; Byte.xfe] = Returns w' /\
    wasmerInst w' = Some guest' /\
    GetMemory guest' "memory" = ok (Some [Byte.x0a; Byte.x0b; Byte.x0c; Byte.xff]).
Proof.
  assert (Hp : 0 <= 3 <= len Sample.memory) by (vm_compute; split; discriminate).
  destruct (writeMemoryAtLocation_writes_what_fits Sample.idle Sample.guest
              Sample.memory [Byte.xff; Byte.xfe] 3 eq_refl eq_refl Hp)
    as (w' & guest' & memory' & Hwrite & Hguest & _).
  exists w', guest'. split; [exact Hwrite|]. split; [exact Hguest|].
  vm_compute in Hwrite. injection Hwrite as <-.
  simpl in Hguest. injection Hguest as <-. reflexivity.
Defined.

(** A pointer outside the memory makes the write panic. *)
Lemma writeMemoryAtLocation_outside_panics
    (w : wasmInstance) (guest : wasmer_Instance) (memory data : bytes) (pointer : Z) :
  wasmerInst w = Some guest ->
  GetMemory guest "memory" = ok (Some memory) ->
  pointer < 0 \/ len memory < pointer ->
  Glue.writeMemoryAtLocation w pointer data = Panics slice_bounds_out_of_range.
Proof.
  intros Hw Hmem Hp. unfold Glue.writeMemoryAtLocation. rewrite Hw, Hmem.
  unfold slice_from.
  destruct (0 <=? pointer) eqn:H0; [|reflexivity].
  destruct (pointer <=? len memory) eqn:H1; [|reflexivity].
  apply Z.leb_le in H0. apply Z.leb_le in H1. lia.
Qed.

Section GuestAllocator.

Variable allocate : Z -> wasmer_Instance -> result Z * wasmer_Instance.

(** X18: [writeMemory] followed by [readMemory]: when the guest's [allocate]
    hands out a pointer with room for the data, the data is read back
    from that pointer. *)
Theorem writeMemory_readMemory
    (w : wasmInstance) (guest guest' : wasmer_Instance) (f : NativeFunction)
    (memory data : bytes) (pointer : Z) :
  wasmerInst w = Some guest ->
  GetFunction guest "allocate" = ok (Some f) ->
  allocate (len data) guest = (ok pointer, guest') ->
  GetMemory guest' "memory" = ok (Some memory) ->
  0 <= pointer ->
  pointer + len data <= len memory ->
  len data <= MaxInt32 ->
  exists w',
    Glue.writeMemory allocate w data = Returns (ok pointer, w') /\
    readMemory w' pointer (len data) = Returns data.
Proof.
  intros Hw Hf Halloc Hmem Hp Hfit Hsize.
  unfold Glue.writeMemory. rewrite Hw, Hf, Halloc.
  destruct (writeMemoryAtLocation_read_back
              (Glue.set_wasmerInst (Some guest') w) guest' memory data pointer
              eq_refl Hmem Hp Hfit Hsize) as (w' & Hwrite & Hread).
  exists w'. rewrite Hwrite. simpl. auto.
Qed.

(** X19: Without an [allocate] export [writeMemory] returns its error and
    leaves the instance as it is; when [allocate] fails, its error is
    returned wrapped and nothing is written to the memory the guest has
    after the call. *)
Theorem writeMemory_allocate_errors
    (w : wasmInstance) (guest : wasmer_Instance) (data : bytes) :
  wasmerInst w = Some guest ->
  ((forall f, GetFunction guest "allocate" <> ok (Some f)) ->
     Glue.writeMemory allocate w data
     = Returns (fail (errors_New "missing required FFI function: allocate"), w)) /\
  (forall f err guest',
     GetFunction guest "allocate" = ok (Some f) ->
     allocate (len data) guest = (fail err, guest') ->
     Glue.writeMemory allocate w data
     = Returns (fail (errors_Wrap err "failed to call allocate"),
                Glue.set_wasmerInst (Some guest') w)).
Proof.
  intros Hw. unfold Glue.writeMemory. rewrite Hw. split.
  - intros Hmissing.
    destruct (GetFunction guest "allocate") as [[f|]|err]; try reflexivity.
    exfalso. apply (Hmissing f). reflexivity.
  - intros f err guest' Hf Halloc. rewrite Hf, Halloc. reflexivity.
Qed.

End GuestAllocator.

(** ** The pool under [addInstance], [removeInstance] and [useInstance] *)

(** What [addInstance] does to the instance list and to the instances. *)
Lemma addInstance_pool (W : wasmer) (s : State) (w : ptr) (e : wasmEnvironment) :
  env_store s !! w = Some e ->
  exists r s' e',
    addInstance W w s = Returns (r, s') /\
    env_store s' !! w = Some e' /\
    instIndex e' = instIndex e /\
    match r with
    | Some _ => instances e' = instances e /\ inst_store s' = inst_store s
    | None =>
      exists inst,
        instances e' = instances e ++ [fresh (dom (inst_store s))] /\
        inst_store s'
        = <[fresh (dom (inst_store s)) := new_wasmInstance inst]> (inst_store s)
    end.
Proof.
  intros He.
  destruct (internals_Returns W s w e He)
    as (r1 & s1 & e1 & Hint & He1 & Hinsts & Hstore & Hcalls).
  destruct (internals_frame W s s1 w e r1 He Hint)
    as (_ & _ & (e1' & He1' & _ & Hcursor) & _).
  rewrite He1 in He1'. injection He1' as <-.
  unfold addInstance, bindM at 1. rewrite Hint. simpl.
  destruct r1 as [[[module st] imports]|err].
  2:{ eexists _, s1, e1. split; [reflexivity|]. simpl. auto. }
  destruct (NewInstance W module imports) as [inst|err].
  2:{ eexists _, s1, e1. split; [reflexivity|]. simpl. auto. }
  unfold call, note_call, bindM, ret, get, store_inst, load_env, store_env.
  destruct (GetWasiStartFunction inst) as [[[[wasiStartErr|]]|]|wasiErr];
    destruct (GetFunction inst "_start") as [[[[startErr|]]|]|startLookupErr];
    destruct (GetFunction inst "init") as [[[[initErr|]]|]|initLookupErr];
    simpl; rewrite ?He1; simpl.
  all: eexists _, _, _; (split; [reflexivity|]); simpl.
  all: first
    [ split; [exact He1|]; split; [exact Hcursor|]; split; assumption
    | split; [apply lookup_insert_eq|]; split; [exact Hcursor|];
      exists inst; simpl; rewrite Hstore, Hinsts; split; reflexivity ].
Qed.

(** [removeInstance] on a pool whose last instance is usable. *)
Lemma removeInstance_last (s : State) (w : ptr) (e : wasmEnvironment)
    (rest : list ptr) (inst : ptr) (x : wasmInstance) (guest : wasmer_Instance) :
  env_store s !! w = Some e ->
  instances e = rest ++ [inst] ->
  inst_store s !! inst = Some x ->
  wasmerInst x = Some guest ->
  0 <= instIndex e <= MaxInt \/ instIndex e <> len (instances e) - 1 ->
  removeInstance w s
  = Returns (None,
      set_inst_store
        (<[inst := {| wasmerInst := None; ctx := None; ffiResult := None;
                      resultChan := None; errChan := None |}]> (inst_store s))
        (set_env_store
           (<[w := set_instances rest
                     (if instIndex e =? len (instances e) - 1
                      then set_instIndex (instIndex e - 1) e else e)]> (env_store s))
           s)).
Proof.
  intros He Hlist Hx Hguest Hcursor.
  assert (Hlen : len (instances e) = len rest + 1).
  { unfold len. rewrite Hlist, length_app. simpl. lia. }
  assert (Hlast : instances e !! Z.to_nat (len (instances e) - 1) = Some inst).
  { rewrite Hlen, Hlist. replace (Z.to_nat (len rest + 1 - 1)) with (length rest)
      by (unfold len; lia).
    rewrite lookup_app_r by lia. rewrite Nat.sub_diag. reflexivity. }
  assert (Htake : take (Z.to_nat (len (instances e) - 1)) (instances e) = rest).
  { rewrite Hlen, Hlist. replace (Z.to_nat (len rest + 1 - 1)) with (length rest)
      by (unfold len; lia).
    apply take_app_length. }
  unfold removeInstance, bindM at 1, load_env at 1. rewrite He. simpl.
  replace (len (instances e) =? 0) with false
    by (symmetry; apply Z.eqb_neq; unfold len in *; lia).
  unfold bindM at 1, lift.
  rewrite (index_Some (instances e) (len (instances e) - 1) inst)
    by (unfold len in *; first [lia | exact Hlast]).
  simpl. unfold bindM at 1, load_env at 1. rewrite He. simpl.
  destruct (instIndex e =? len (instances e) - 1) eqn:Hlasteq.
  - apply Z.eqb_eq in Hlasteq.
    rewrite int_id by (unfold MinInt, MaxInt, len in *; lia).
    simpl. replace (0 <=? len (instances e) - 1) with true
      by (symmetry; apply Z.leb_le; unfold len in *; lia).
    unfold bindM, store_env, load_inst, store_inst, ret. simpl.
    rewrite Hx. simpl. rewrite Hguest. simpl. rewrite Htake. reflexivity.
  - replace (0 <=? len (instances e) - 1) with true
      by (symmetry; apply Z.leb_le; unfold len in *; lia).
    unfold bindM, store_env, load_inst, store_inst, ret. simpl.
    rewrite Hx. simpl. rewrite Hguest. simpl. rewrite Htake. reflexivity.
Qed.

Lemma cursor_ok_grow (e e' : wasmEnvironment) :
  instIndex e' = instIndex e ->
  len (instances e) <= len (instances e') ->
  Pool.cursor_ok e -> Pool.cursor_ok e'.
Proof. unfold Pool.cursor_ok. intros -> Hlen H. lia. Qed.

Lemma usable_other (s : State) (p q : ptr) (x : wasmInstance) :
  p <> q ->
  Pool.usable s q ->
  Pool.usable (set_inst_store (<[p := x]> (inst_store s)) s) q.
Proof.
  intros Hne (y & guest & Hy & Hguest). exists y, guest. simpl.
  rewrite lookup_insert_ne by exact Hne. auto.
Qed.

(** [addInstance] keeps a sound pool sound. *)
Lemma addInstance_pool_step (W : wasmer) (s : State) (w : ptr) (e : wasmEnvironment) :
  env_store s !! w = Some e ->
  Pool.pool_ok s w ->
  len (instances e) < MaxInt ->
  exists r s' e',
    addInstance W w s = Returns (r, s') /\
    env_store s' !! w = Some e' /\
    Pool.pool_ok s' w /\
    len (instances e) <= len (instances e') <= len (instances e) + 1.
Proof.
  intros He (e0 & He0 & Hcursor & Hlen & Hnodup & Husable) Hroom.
  rewrite He in He0. injection He0 as <-.
  destruct (addInstance_pool W s w e He) as (r & s' & e' & Hadd & He' & Hidx & Hpost).
  exists r, s', e'. split; [exact Hadd|]. split; [exact He'|].
  destruct r as [err|].
  - destruct Hpost as [Hinsts Hstore]. split; [|rewrite Hinsts; lia].
    exists e'. split; [exact He'|]. rewrite Hinsts.
    split; [apply (cursor_ok_grow e e' Hidx); [rewrite Hinsts; lia | exact Hcursor]|].
    split; [exact Hlen|]. split; [exact Hnodup|].
    eapply Forall_impl; [exact Husable|].
    intros p (x & guest & Hx & Hguest). exists x, guest. rewrite Hstore. auto.
  - destruct Hpost as (inst & Hinsts & Hstore).
    assert (Hlen' : len (instances e') = len (instances e) + 1).
    { unfold len. rewrite Hinsts, length_app. simpl. lia. }
    split; [|lia].
    assert (Hfresh : fresh (dom (inst_store s)) ∉ instances e).
    { intros Hin. rewrite Forall_forall in Husable.
      destruct (Husable _ Hin) as (x & guest & Hx & _).
      pose proof (fresh_inst_free s) as Hfree. congruence. }
    exists e'. split; [exact He'|].
    split; [apply (cursor_ok_grow e e' Hidx); [lia | exact Hcursor]|].
    split; [lia|]. rewrite Hinsts. split.
    + apply NoDup_app. split; [exact Hnodup|]. split.
      * intros p Hp Hp'. apply list_elem_of_singleton in Hp'. subst p.
        exact (Hfresh Hp).
      * apply NoDup_singleton.
    + apply Forall_app. split.
      * rewrite Forall_forall. intros p Hp. rewrite Forall_forall in Husable.
        destruct (Husable p Hp) as (x & guest & Hx & Hguest).
        exists x, guest. rewrite Hstore.
        rewrite lookup_insert_ne; [auto|]. intros <-. exact (Hfresh Hp).
      * apply Forall_singleton. eexists _, inst. rewrite Hstore.
        split; [apply lookup_insert_eq | reflexivity].
Qed.

(** [removeInstance] on a sound pool: it returns without error, drops the
    last instance of the list, clears that instance, and leaves a sound
    pool; the registry and the table of environments are not touched. *)
Lemma removeInstance_pool_step (s : State) (w : ptr) (e : wasmEnvironment) :
  env_store s !! w = Some e ->
  Pool.pool_ok s w ->
  exists s' e',
    removeInstance w s = Returns (None, s') /\
    env_store s' !! w = Some e' /\
    Pool.pool_ok s' w /\
    instances e' = take (length (instances e) - 1) (instances e) /\
    instanceMapper s' = instanceMapper s /\
    environments s' = environments s /\
    (forall inst, last (instances e) = Some inst ->
       exists cleared,
         inst_store s' !! inst = Some cleared /\
         wasmerInst cleared = None /\ ctx cleared = None /\
         ffiResult cleared = None).
Proof.
  intros He (e0 & He0 & Hcursor & Hlen & Hnodup & Husable).
  rewrite He in He0. injection He0 as <-.
  destruct (decide (instances e = [])) as [Hnil|Hne].
  { exists s, e. rewrite (removeInstance_empty s w e He Hnil).
    split; [reflexivity|]. split; [exact He|].
    split; [exists e; auto|]. rewrite Hnil. simpl.
    repeat split; try reflexivity. intros inst Hlast. discriminate Hlast. }
  destruct (exists_last Hne) as (rest & inst & Hlist).
  assert (Hlen1 : len (instances e) = len rest + 1).
  { unfold len. rewrite Hlist, length_app. simpl. lia. }
  assert (Hinst : Pool.usable s inst).
  { rewrite Forall_forall in Husable. apply Husable. rewrite Hlist.
    apply elem_of_app. right. apply list_elem_of_singleton. reflexivity. }
  destruct Hinst as (x & guest & Hx & Hguest).
  assert (Hnotin : inst ∉ rest).
  { rewrite Hlist in Hnodup. apply NoDup_app in Hnodup.
    destruct Hnodup as (_ & Hdisj & _). intros Hin. apply (Hdisj inst Hin).
    apply list_elem_of_singleton. reflexivity. }
  unfold Pool.cursor_ok in Hcursor.
  eexists _, _. split.
  { apply (removeInstance_last s w e rest inst x guest He Hlist Hx Hguest).
    destruct (Z.eq_dec (instIndex e) (len (instances e) - 1)); [left|right; assumption].
    unfold MaxInt, len in *. lia. }
  simpl. split; [apply lookup_insert_eq|].
  split; [|split; [|split; [reflexivity|split; [reflexivity|]]]].
  - eexists. split; [simpl; apply lookup_insert_eq|].
    split; [|split; [|split]].
    + unfold Pool.cursor_ok.
      destruct (instIndex e =? len (instances e) - 1) eqn:Hlast; simpl.
      * apply Z.eqb_eq in Hlast. unfold len in *. lia.
      * apply Z.eqb_neq in Hlast. unfold len in *. lia.
    + destruct (instIndex e =? len (instances e) - 1); simpl; unfold len in *; lia.
    + destruct (instIndex e =? len (instances e) - 1); simpl;
        rewrite Hlist in Hnodup; apply NoDup_app in Hnodup; tauto.
    + assert (Hrest : Forall (Pool.usable
                 (set_inst_store
                    (<[inst := {| wasmerInst := None; ctx := None; ffiResult := None;
                                  resultChan := None; errChan := None |}]>
                       (inst_store s))
                    (set_env_store
                       (<[w := set_instances rest
                                 (if instIndex e =? len (instances e) - 1
                                  then set_instIndex (instIndex e - 1) e else e)]>
                          (env_store s)) s))) rest).
      { rewrite Forall_forall. intros p Hp. rewrite Forall_forall in Husable.
        destruct (Husable p) as (y & g & Hy & Hg).
        { rewrite Hlist. apply elem_of_app. left. exact Hp. }
        exists y, g. simpl. rewrite lookup_insert_ne; [auto|].
        intros <-. exact (Hnotin Hp). }
      destruct (instIndex e =? len (instances e) - 1); simpl; exact Hrest.
  - destruct (instIndex e =? len (instances e) - 1); simpl;
      rewrite Hlist, length_app; simpl;
      replace (length rest + 1 - 1)%nat with (length rest) by lia;
      symmetry; apply take_app_length.
  - intros inst' Hlast. rewrite Hlist, last_snoc in Hlast. injection Hlast as <-.
    eexists. split; [apply lookup_insert_eq|]. auto.
Qed.

(** The selection of [useInstance] on a sound pool with at least one
    instance. *)
Lemma useInstance_locked_pool_step (s : State) (w : ptr) (e : wasmEnvironment) :
  env_store s !! w = Some e ->
  Pool.pool_ok s w ->
  instances e <> [] ->
  exists i inst s',
    useInstance_locked w s = Returns ((i, inst), s') /\
    0 <= i < len (instances e) /\
    instances e !! Z.to_nat i = Some inst /\
    Pool.usable s' inst /\
    env_store s' !! w = Some (advanced e) /\
    inst_store s' = inst_store s /\
    Pool.pool_ok s' w.
Proof.
  intros He (e0 & He0 & Hcursor & Hlen & Hnodup & Husable) Hne.
  rewrite He in He0. injection He0 as <-.
  assert (Hpos : 1 <= len (instances e)).
  { destruct (instances e); [congruence|]. unfold len. simpl. lia. }
  unfold Pool.cursor_ok in Hcursor.
  assert (Hnext : 0 <= instIndex (advanced e) < len (instances e)).
  { unfold advanced.
    destruct (instIndex e =? len (instances e) - 1) eqn:Hlast; simpl; [lia|].
    apply Z.eqb_neq in Hlast.
    rewrite int_id by (unfold MinInt, MaxInt in *; lia). lia. }
  destruct (lookup_lt_is_Some_2 (instances e) (Z.to_nat (instIndex (advanced e))))
    as [inst Hinst].
  { unfold len in Hnext. lia. }
  exists (instIndex (advanced e)), inst,
    (set_env_store (<[w := advanced e]> (env_store s)) s).
  rewrite (useInstance_locked_unfold s w e He).
  rewrite (index_Some _ _ _ (proj1 Hnext) Hinst). simpl.
  split; [reflexivity|]. split; [exact Hnext|]. split; [exact Hinst|].
  assert (Huse : Pool.usable (set_env_store (<[w := advanced e]> (env_store s)) s) inst).
  { rewrite Forall_forall in Husable. apply (Husable inst).
    apply list_elem_of_lookup. eauto. }
  split; [exact Huse|]. split; [apply lookup_insert_eq|]. split; [reflexivity|].
  exists (advanced e). simpl. split; [apply lookup_insert_eq|].
  rewrite advanced_instances.
  split; [unfold Pool.cursor_ok; rewrite advanced_instances; lia|]. auto.
Qed.

Lemma useInstance_locked_empty (s : State) (w : ptr) (e : wasmEnvironment) :
  env_store s !! w = Some e ->
  instIndex e <= MaxInt ->
  instances e = [] ->
  useInstance_locked w s = Panics index_out_of_range.
Proof.
  intros He Hmax Hnil. rewrite (useInstance_locked_unfold s w e He).
  rewrite index_out_of_range_panics; [reflexivity|].
  apply advanced_out_of_range; auto.
Qed.

(** X7: However workers are added and removed and jobs pick their instances,
    a sound pool stays sound, and the only thing that can go wrong is a
    job picking an instance while the pool is empty: if the sequence
    panics, the operations before some selection of the sequence all
    returned, they left a sound pool without instances, and that selection
    is what panics, with an index out of range. *)
Theorem pool_operations_keep_the_pool_sound (W : wasmer) (w : ptr) :
  forall (ops : list Pool.op) (s : State) (e : wasmEnvironment),
    env_store s !! w = Some e ->
    Pool.pool_ok s w ->
    len (instances e) + len ops <= MaxInt ->
    match Pool.perform_all W w ops s with
    | Returns (_, s') => Pool.pool_ok s' w
    | Panics p =>
      p = index_out_of_range /\
      exists before after s0 e0,
        ops = before ++ Pool.op_useInstance :: after /\
        Pool.perform_all W w before s = Returns (tt, s0) /\
        Pool.pool_ok s0 w /\
        env_store s0 !! w = Some e0 /\
        instances e0 = [] /\
        useInstance_locked w s0 = Panics index_out_of_range
    | Starved => False
    end.
Proof.
  induction ops as [|o ops IH]; intros s e He Hok Hroom; [exact Hok|].
  assert (Hlen : len (o :: ops) = len ops + 1) by (unfold len; simpl; lia).
  assert (Hops : 0 <= len ops) by (unfold len; lia).
  assert (Hlater : forall (s1 : State) (e1 : wasmEnvironment),
            Pool.perform W w o s = Returns (tt, s1) ->
            env_store s1 !! w = Some e1 ->
            Pool.pool_ok s1 w ->
            len (instances e1) <= len (instances e) + 1 ->
            match Pool.perform_all W w (o :: ops) s with
            | Returns (_, s') => Pool.pool_ok s' w
            | Panics p =>
              p = index_out_of_range /\
              exists before after s0 e0,
                o :: ops = before ++ Pool.op_useInstance :: after /\
                Pool.perform_all W w before s = Returns (tt, s0) /\
                Pool.pool_ok s0 w /\
                env_store s0 !! w = Some e0 /\
                instances e0 = [] /\
                useInstance_locked w s0 = Panics index_out_of_range
            | Starved => False
            end).
  { intros s1 e1 Hperf He1 Hok1 Hlen1.
    specialize (IH s1 e1 He1 Hok1 ltac:(lia)).
    cbn [Pool.perform_all]. unfold bindM at 1. rewrite Hperf. simpl.
    destruct (Pool.perform_all W w ops s1) as [[u s']|p|]; [exact IH| |exact IH].
    destruct IH as [-> (before & after & s0 & e0 & -> & Hbefore & Hok0 & He0 & Hnil & Hpanic)].
    split; [reflexivity|].
    exists (o :: before), after, s0, e0. split; [reflexivity|].
    split; [|auto].
    cbn [Pool.perform_all]. unfold bindM at 1. rewrite Hperf. simpl. exact Hbefore. }
  destruct o.
  - destruct (addInstance_pool_step W s w e He Hok ltac:(lia))
      as (r & s1 & e1 & Hadd & He1 & Hok1 & Hlen1).
    apply (Hlater s1 e1); [|exact He1|exact Hok1|lia].
    unfold Pool.perform, bindM. rewrite Hadd. reflexivity.
  - destruct (removeInstance_pool_step s w e He Hok)
      as (s1 & e1 & Hrem & He1 & Hok1 & Hinsts & _).
    apply (Hlater s1 e1); [|exact He1|exact Hok1|].
    + unfold Pool.perform, bindM. rewrite Hrem. reflexivity.
    + unfold len. rewrite Hinsts, length_take. lia.
  - destruct (decide (instances e = [])) as [Hnil|Hne].
    + assert (Hpanic : useInstance_locked w s = Panics index_out_of_range).
      { apply (useInstance_locked_empty s w e He); [|exact Hnil].
        destruct Hok as (e0 & He0 & Hcursor & _). rewrite He in He0.
        injection He0 as <-. unfold Pool.cursor_ok in Hcursor.
        rewrite Hnil in Hcursor. unfold MaxInt, len in *. simpl in Hcursor. lia. }
      cbn [Pool.perform_all]. unfold bindM at 1, Pool.perform, bindM at 1.
      rewrite Hpanic. simpl. split; [reflexivity|].
      exists [], ops, s, e. split; [reflexivity|]. split; [reflexivity|]. auto.
    + destruct (useInstance_locked_pool_step s w e He Hok Hne)
        as (i & inst & s1 & Hsel & _ & _ & _ & He1 & _ & Hok1).
      apply (Hlater s1 (advanced e)); [|exact He1|exact Hok1|].
      * unfold Pool.perform, bindM. rewrite Hsel. reflexivity.
      * rewrite advanced_instances. lia.
Qed.

Lemma pool_operations_keep_the_pool_sound_witness :
  (exists s',
     Pool.perform_all Sample.engine 1%positive
       [Pool.op_addInstance; Pool.op_useInstance; Pool.op_removeInstance]
       Sample.empty_pool = Returns (tt, s') /\
     Pool.pool_ok s' 1%positive) /\
  (exists s0 e0,
     Pool.perform_all Sample.engine 1%positive
       [Pool.op_addInstance; Pool.op_removeInstance; Pool.op_useInstance]
       Sample.empty_pool = Panics index_out_of_range /\
     Pool.perform_all Sample.engine 1%positive
       [Pool.op_addInstance; Pool.op_removeInstance] Sample.empty_pool
     = Returns (tt, s0) /\
     env_store s0 !! 1%positive = Some e0 /\ instances e0 = []).
Proof.
  assert (Hok : Pool.pool_ok Sample.empty_pool 1%positive).
  { exists (Sample.env [] 0). split; [reflexivity|].
    split; [vm_compute; split; discriminate|].
    split; [vm_compute; discriminate|].
    split; [apply NoDup_nil_2 | apply Forall_nil_2]. }
  assert (Hroom : len (instances (Sample.env [] 0)) + 3 <= MaxInt)
    by (vm_compute; discriminate).
  split.
  - pose proof (pool_operations_keep_the_pool_sound Sample.engine 1%positive
                  [Pool.op_addInstance; Pool.op_useInstance; Pool.op_removeInstance]
                  Sample.empty_pool (Sample.env [] 0) eq_refl Hok Hroom) as Hrun.
    destruct (Pool.perform_all Sample.engine 1%positive
                [Pool.op_addInstance; Pool.op_useInstance; Pool.op_removeInstance]
                Sample.empty_pool) as [[[] s']|p|] eqn:Hall;
      try (vm_compute in Hall; discriminate Hall).
    exists s'. split; [reflexivity|exact Hrun].
  - pose proof (pool_operations_keep_the_pool_sound Sample.engine 1%positive
                  [Pool.op_addInstance; Pool.op_removeInstance; Pool.op_useInstance]
                  Sample.empty_pool (Sample.env [] 0) eq_refl Hok Hroom) as Hrun.
    destruct (Pool.perform_all Sample.engine 1%positive
                [Pool.op_addInstance; Pool.op_removeInstance; Pool.op_useInstance]
                Sample.empty_pool) as [[[] s']|p|] eqn:Hall;
      try (vm_compute in Hall; discriminate Hall).
    destruct Hrun as [-> (before & after & s0 & e0 & Hops & Hbefore & _ & He0 & Hnil & _)].
    destruct before as [|o0 [|o1 [|o2 before]]]; simpl in Hops;
      try discriminate Hops.
    + injection Hops as -> -> <-.
      exists s0, e0. split; [reflexivity|]. split; [exact Hbefore|].
      split; [exact He0|exact Hnil].
    + injection Hops as _ _ _ Hops. destruct before; discriminate Hops.
Defined.

(** X4: [removeInstance] on a sound pool returns without error, drops exactly
    the last instance of the list and clears it (engine instance, context
    and staged result are nil afterwards), leaves the pool sound, and does
    not touch the identifier registry or the table of environments. *)
Theorem removeInstance_drops_the_last_instance
    (s : State) (w : ptr) (e : wasmEnvironment) :
  env_store s !! w = Some e ->
  Pool.pool_ok s w ->
  exists s' e',
    removeInstance w s = Returns (None, s') /\
    env_store s' !! w = Some e' /\
    Pool.pool_ok s' w /\
    instances e' = take (length (instances e) - 1) (instances e) /\
    instanceMapper s' = instanceMapper s /\
    environments s' = environments s /\
    (forall inst, last (instances e) = Some inst ->
       exists cleared,
         inst_store s' !! inst = Some cleared /\
         wasmerInst cleared = None /\ ctx cleared = None /\
         ffiResult cleared = None).
Proof. apply removeInstance_pool_step. Qed.

Lemma sample_pool_ok :
  Pool.pool_ok (Sample.pool_of_two []) 1%positive.
Proof.
  exists (Sample.env [1%positive; 2%positive] 0). split; [reflexivity|].
  split; [vm_compute; split; discriminate|].
  split; [vm_compute; discriminate|]. split.
  - apply NoDup_cons. split; [|apply NoDup_singleton].
    intros Hin. apply list_elem_of_singleton in Hin. discriminate Hin.
  - repeat constructor; exists Sample.idle, Sample.guest; split; reflexivity.
Defined.

Lemma removeInstance_drops_the_last_instance_witness :
  exists s' e',
    removeInstance 1%positive (Sample.pool_of_two []) = Returns (None, s') /\
    env_store s' !! 1%positive = Some e' /\
    instances e' = [1%positive].
Proof.
  destruct (removeInstance_drops_the_last_instance (Sample.pool_of_two []) 1%positive
              (Sample.env [1%positive; 2%positive] 0) eq_refl sample_pool_ok)
    as (s' & e' & Hrem & He' & _ & Hinsts & _).
  exists s', e'. split; [exact Hrem|]. split; [exact He'|]. exact Hinsts.
Defined.

(** X6: On a sound pool with at least one instance the selection of
    [useInstance] never panics: the index it yields is inside the list,
    the instance at that index is the one handed out and is usable, the
    instances are untouched and the pool stays sound.  This includes the
    cursor value -1 that [removeInstance] leaves behind. *)
Theorem useInstance_selects_from_a_sound_pool
    (s : State) (w : ptr) (e : wasmEnvironment) :
  env_store s !! w = Some e ->
  Pool.pool_ok s w ->
  instances e <> [] ->
  exists i inst s',
    useInstance_locked w s = Returns ((i, inst), s') /\
    0 <= i < len (instances e) /\
    instances e !! Z.to_nat i = Some inst /\
    Pool.usable s' inst /\
    env_store s' !! w = Some (advanced e) /\
    inst_store s' = inst_store s /\
    Pool.pool_ok s' w.
Proof. apply useInstance_locked_pool_step. Qed.

Lemma useInstance_selects_from_a_sound_pool_witness :
  exists s',
    useInstance_locked 1%positive (Sample.pool_of_two []) = Returns ((1, 2%positive), s').
Proof.
  destruct (useInstance_selects_from_a_sound_pool (Sample.pool_of_two []) 1%positive
              (Sample.env [1%positive; 2%positive] 0) eq_refl sample_pool_ok
              ltac:(discriminate))
    as (i & inst & s' & Hsel & _).
  exists s'. rewrite Hsel. vm_compute in Hsel. injection Hsel as <- <- _. reflexivity.
Defined.

(** X5: Adding an instance and removing one again gives back the instance
    list the pool had, and the pool is sound afterwards. *)
Theorem addInstance_then_removeInstance
    (W : wasmer) (s s1 : State) (w : ptr) (e : wasmEnvironment) :
  env_store s !! w = Some e ->
  Pool.pool_ok s w ->
  len (instances e) < MaxInt ->
  addInstance W w s = Returns (None, s1) ->
  exists s2 e2,
    removeInstance w s1 = Returns (None, s2) /\
    env_store s2 !! w = Some e2 /\
    instances e2 = instances e /\
    Pool.pool_ok s2 w.
Proof.
  intros He Hok Hroom Hadd.
  destruct (addInstance_pool W s w e He) as (r & s1' & e1 & Hadd' & He1 & _ & Hpost).
  rewrite Hadd in Hadd'. injection Hadd' as <- <-.
  destruct Hpost as (inst & Hinsts & _).
  destruct (addInstance_pool_step W s w e He Hok Hroom)
    as (r & s1' & e1' & Hadd' & _ & Hok1 & _).
  rewrite Hadd in Hadd'. injection Hadd' as <- <-.
  destruct (removeInstance_pool_step s1 w e1 He1 Hok1)
    as (s2 & e2 & Hrem & He2 & Hok2 & Hinsts2 & _).
  exists s2, e2. split; [exact Hrem|]. split; [exact He2|]. split; [|exact Hok2].
  rewrite Hinsts2, Hinsts, length_app. simpl.
  replace (length (instances e) + 1 - 1)%nat with (length (instances e)) by lia.
  apply take_app_length.
Qed.

Lemma addInstance_then_removeInstance_witness :
  exists s1 s2 e2,
    addInstance Sample.engine 1%positive (Sample.pool_of_two []) = Returns (None, s1) /\
    removeInstance 1%positive s1 = Returns (None, s2) /\
    env_store s2 !! 1%positive = Some e2 /\
    instances e2 = [1%positive; 2%positive].
Proof.
  assert (Hroom : len (instances (Sample.env [1%positive; 2%positive] 0)) < MaxInt)
    by (vm_compute; reflexivity).
  destruct (addInstance Sample.engine 1%positive (Sample.pool_of_two []))
    as [[[err|] s1]| |] eqn:Hadd; try (vm_compute in Hadd; discriminate Hadd).
  destruct (addInstance_then_removeInstance Sample.engine (Sample.pool_of_two []) s1
              1%positive (Sample.env [1%positive; 2%positive] 0)
              eq_refl sample_pool_ok Hroom Hadd)
    as (s2 & e2 & Hrem & He2 & Hinsts & _).
  exists s1, s2, e2. split; [reflexivity|]. split; [exact Hrem|]. split; [exact He2|].
  exact Hinsts.
Defined.

(** X1: [newEnvironment] puts the environment at an address not in use,
    registered under its UUID.  The environment it stores holds the module
    reference it was given, no compiled module yet, an empty instance list
    and the cursor 0, which is a sound pool.  Environments registered
    under other UUIDs stay registered. *)
Theorem newEnvironment_is_registered_and_sound
    (uuid : string) (ref : WasmModuleRef) (s s' : State) (w : ptr) :
  newEnvironment uuid ref s = Returns (w, s') ->
  env_store s !! w = None /\
  registered s' w /\
  Pool.pool_ok s' w /\
  (exists e, env_store s' !! w = Some e /\ UUID e = uuid /\ Rwasm.ref e = ref /\
             module e = None /\ instances e = [] /\ instIndex e = 0) /\
  (environments s !! uuid = None ->
   forall w0, registered s w0 -> registered s' w0).
Proof.
  intros Hnew.
  destruct (newEnvironment_registered uuid ref s s' w Hnew) as (Hreg & Hfresh & _).
  assert (Hstored : exists e, env_store s' !! w = Some e /\ UUID e = uuid /\
                              Rwasm.ref e = ref /\ module e = None /\
                              instances e = [] /\ instIndex e = 0).
  { unfold newEnvironment in Hnew. injection Hnew as <- <-. simpl.
    eexists. split; [apply lookup_insert_eq|]. simpl. auto. }
  destruct Hstored as (e & He & Huuid & Href & Hmodule & Hinsts & Hcursor).
  split; [exact Hfresh|]. split; [exact Hreg|]. split; [|split].
  - exists e. split; [exact He|]. unfold Pool.cursor_ok. rewrite Hinsts, Hcursor.
    split; [vm_compute; split; discriminate|].
    split; [vm_compute; discriminate|]. split; [apply NoDup_nil_2 | apply Forall_nil_2].
  - exists e. repeat split; assumption.
  - intros Hunused w0. apply (newEnvironment_keeps_registered uuid ref s s' w w0 Hunused Hnew).
Qed.

Lemma newEnvironment_is_registered_and_sound_witness :
  exists w s' e,
    newEnvironment "env-2" {| Name := "second"; Bytes := ok [] |} (Sample.pool_of_two [])
    = Returns (w, s') /\
    registered s' w /\ Pool.pool_ok s' w /\
    env_store s' !! w = Some e /\ instances e = [] /\ instIndex e = 0 /\
    registered s' 1%positive.
Proof.
  destruct (newEnvironment "env-2" {| Name := "second"; Bytes := ok [] |}
              (Sample.pool_of_two [])) as [[w s']| |] eqn:Hnew;
    try (unfold newEnvironment in Hnew; discriminate Hnew).
  destruct (newEnvironment_is_registered_and_sound "env-2"
              {| Name := "second"; Bytes := ok [] |} (Sample.pool_of_two []) s' w Hnew)
    as (_ & Hreg & Hok & (e & He & _ & _ & _ & Hinsts & Hcursor) & Hothers).
  exists w, s', e. split; [reflexivity|].
  split; [exact Hreg|]. split; [exact Hok|].
  split; [exact He|]. split; [exact Hinsts|]. split; [exact Hcursor|].
  apply Hothers; [vm_compute; reflexivity|].
  exists (Sample.env [1%positive; 2%positive] 0). split; reflexivity.
Defined.

(** ** The identifier registry *)

Lemma setupNewIdentifier_loop_range (fuel : nat) (envUUID : string) (instIndex : Z) :
  forall (s s' : State) (t : Z),
    Forall (fun draw => match draw with
                        | ok num => 0 <= num < MaxInt32
                        | fail _ => True
                        end) (rand_Reader s) ->
    setupNewIdentifier_loop fuel envUUID instIndex s = Returns (ok t, s') ->
    0 <= t < MaxInt32.
Proof.
  induction fuel as [|fuel IH]; intros s s' t Hdraws H; simpl in H; [discriminate|].
  unfold bindM, randomIdentifier in H.
  destruct (rand_Reader s) as [|[num|err] rest] eqn:Hs; simpl in H.
  - discriminate.
  - apply Forall_cons in Hdraws. destruct Hdraws as [Hnum Hrest].
    unfold instanceMapper_Load in H. simpl in H.
    destruct (instanceMapper s !! int32 (wrap 64 num)) as [taken|].
    + apply (IH (set_rand_Reader rest s) s' t); [exact Hrest | exact H].
    + unfold instanceMapper_Store, ret in H. simpl in H. injection H as <- _.
      unfold MaxInt32 in *.
      rewrite (wrap_id 64 num) by (simpl; lia).
      rewrite int32_id by (unfold MaxInt32; lia). lia.
  - unfold ret in H. discriminate H.
Qed.

(** X8: An identifier handed out is one of the values [rand.Int] can deliver
    below [math.MaxInt32]: it is non-negative, fits 31 bits, and is never
    the -1 the package uses to signal an error; it was not in the
    registry before and leads to the caller's reference after. *)
Theorem setupNewIdentifier_hands_out_a_fresh_31_bit_token
    (envUUID : string) (instIndex : Z) (s s' : State) (t : Z) :
  Forall (fun draw => match draw with
                      | ok num => 0 <= num < MaxInt32
                      | fail _ => True
                      end) (rand_Reader s) ->
  setupNewIdentifier envUUID instIndex s = Returns (ok t, s') ->
  0 <= t < MaxInt32 /\
  t <> -1 /\
  instanceMapper s !! t = None /\
  instanceMapper s' !! t = Some {| EnvUUID := envUUID; InstIndex := instIndex |} /\
  (forall t', t' <> t -> instanceMapper s' !! t' = instanceMapper s !! t').
Proof.
  intros Hdraws H.
  assert (Hrange : 0 <= t < MaxInt32)
    by (apply (setupNewIdentifier_loop_range _ _ _ _ _ _ Hdraws H)).
  apply setupNewIdentifier_Returns in H.
  destruct H as (_ & _ & _ & _ & _ & Hfree & Hmapper).
  split; [exact Hrange|]. split; [lia|]. split; [exact Hfree|].
  rewrite Hmapper. split; [apply lookup_insert_eq|].
  intros t' Hne. apply lookup_insert_ne. congruence.
Qed.

Lemma setupNewIdentifier_hands_out_a_fresh_31_bit_token_witness :
  exists s',
    setupNewIdentifier "env-1" 0 (Sample.state Sample.idle Sample.registry [ok 5; ok 9])
    = Returns (ok 9, s') /\
    instanceMapper s' !! 9 = Some {| EnvUUID := "env-1"; InstIndex := 0 |} /\
    instanceMapper s' !! 5 = Some {| EnvUUID := "env-1"; InstIndex := 0 |}.
Proof.
  pose (s := Sample.state Sample.idle Sample.registry [ok 5; ok 9]).
  pose (s' := set_instanceMapper
                (<[9 := {| EnvUUID := "env-1"; InstIndex := 0 |}]> (instanceMapper s))
                (set_rand_Reader [] s)).
  assert (Hsetup : setupNewIdentifier "env-1" 0 s = Returns (ok 9, s'))
    by (vm_compute; reflexivity).
  exists s'. split; [exact Hsetup|].
  assert (Hdraws : Forall (fun draw => match draw with
                                       | ok num => 0 <= num < MaxInt32
                                       | fail _ => True
                                       end) (rand_Reader s)).
  { repeat constructor; vm_compute; discriminate. }
  destruct (setupNewIdentifier_hands_out_a_fresh_31_bit_token "env-1" 0 s s' 9
              Hdraws Hsetup) as (_ & _ & _ & Hnew & Hold).
  split; [exact Hnew|]. rewrite (Hold 5) by discriminate. reflexivity.
Defined.


(** When the random source has nothing but tokens already in the
    registry to offer, the loop does not end within those draws. *)
Lemma setupNewIdentifier_loop_starves (envUUID : string) (instIndex : Z) :
  forall (draws : list (result Z)) (fuel : nat) (s : State),
    rand_Reader s = draws ->
    Forall (fun draw => ~ ends_loop (instanceMapper s) draw) draws ->
    setupNewIdentifier_loop fuel envUUID instIndex s = Starved.
Proof.
  induction draws as [|d draws IH]; intros fuel s Hs Hall;
    (destruct fuel as [|fuel]; [reflexivity|]);
    simpl; unfold bindM, randomIdentifier; rewrite Hs; [reflexivity|].
  apply Forall_cons in Hall. destruct Hall as [Hd Hrest].
  destruct d as [num|err]; simpl in Hd; [|tauto].
  simpl. unfold instanceMapper_Load. simpl.
  destruct (instanceMapper s !! int32 (wrap 64 num)) as [taken|]; [|tauto].
  apply IH; [reflexivity | exact Hrest].
Qed.

(** X12: Issuing an identifier and revoking it again leaves the registry as
    it was, and the identifier leads nowhere afterwards. *)
Theorem setupNewIdentifier_then_removeIdentifier
    (envUUID : string) (instIndex : Z) (s s1 : State) (t : Z) :
  setupNewIdentifier envUUID instIndex s = Returns (ok t, s1) ->
  exists s2,
    removeIdentifier t s1 = Returns (tt, s2) /\
    instanceMapper s2 = instanceMapper s /\
    forall needsFFIResult,
      instanceForIdentifier t needsFFIResult s2
      = Returns (fail (errors_New "instance does not exist"), s2).
Proof.
  intros H. apply setupNewIdentifier_Returns in H.
  destruct H as (_ & _ & _ & _ & _ & Hfree & Hmapper).
  exists (set_instanceMapper (delete t (instanceMapper s1)) s1).
  split; [reflexivity|]. simpl. rewrite Hmapper.
  rewrite delete_insert_eq, (delete_id _ _ Hfree). split; [reflexivity|].
  intros needsFFIResult. apply instanceForIdentifier_unknown. simpl.
  exact Hfree.
Qed.

Lemma setupNewIdentifier_then_removeIdentifier_witness :
  exists s1 s2,
    setupNewIdentifier "env-1" 0 (Sample.state Sample.idle ∅ [ok 7]) = Returns (ok 7, s1) /\
    removeIdentifier 7 s1 = Returns (tt, s2) /\
    instanceMapper s2 = ∅.
Proof.
  pose (s := Sample.state Sample.idle ∅ [ok 7]).
  pose (s1 := set_instanceMapper
                (<[7 := {| EnvUUID := "env-1"; InstIndex := 0 |}]> (instanceMapper s))
                (set_rand_Reader [] s)).
  assert (Hsetup : setupNewIdentifier "env-1" 0 s = Returns (ok 7, s1))
    by (vm_compute; reflexivity).
  destruct (setupNewIdentifier_then_removeIdentifier "env-1" 0 s s1 7 Hsetup)
    as (s2 & Hrem & Hmapper & _).
  exists s1, s2. split; [exact Hsetup|]. split; [exact Hrem|]. exact Hmapper.
Defined.

Lemma setupNewIdentifier_loop_error (fuel : nat) (envUUID : string) (instIndex : Z) :
  forall (s s' : State) (e : error),
    setupNewIdentifier_loop fuel envUUID instIndex s = Returns (fail e, s') ->
    exists err,
      fail err ∈ rand_Reader s /\
      e = errors_Wrap (errors_Wrap err "failed to rand.Int") "failed to randomIdentifier".
Proof.
  induction fuel as [|fuel IH]; intros s s' e H; simpl in H; [discriminate|].
  unfold bindM, randomIdentifier in H.
  destruct (rand_Reader s) as [|[num|err] rest] eqn:Hs; simpl in H.
  - discriminate.
  - unfold instanceMapper_Load in H. simpl in H.
    destruct (instanceMapper s !! int32 (wrap 64 num)) as [taken|].
    + apply IH in H. simpl in H. destruct H as (err & Hin & ->).
      exists err. split; [apply elem_of_cons; auto | reflexivity].
    + unfold instanceMapper_Store, ret in H. simpl in H. discriminate H.
  - unfold ret in H. injection H as <- _.
    exists err. split; [apply elem_of_cons; auto | reflexivity].
Qed.

(** X10: The only error [setupNewIdentifier] returns is a failure of the
    random source, wrapped twice; in that case nothing was registered. *)
Theorem setupNewIdentifier_fails_only_with_the_random_source
    (envUUID : string) (instIndex : Z) (s s' : State) (e : error) :
  setupNewIdentifier envUUID instIndex s = Returns (fail e, s') ->
  instanceMapper s' = instanceMapper s /\
  exists err,
    fail err ∈ rand_Reader s /\
    e = errors_Wrap (errors_Wrap err "failed to rand.Int") "failed to randomIdentifier".
Proof.
  intros H. split.
  - apply setupNewIdentifier_Returns in H. tauto.
  - apply (setupNewIdentifier_loop_error _ _ _ _ _ _ H).
Qed.

Lemma setupNewIdentifier_fails_only_with_the_random_source_witness :
  exists s',
    setupNewIdentifier "env-1" 0
      (Sample.state Sample.idle Sample.registry
         [ok 5; fail (errors_New "entropy source closed")])
    = Returns (fail (errors_Wrap (errors_Wrap (errors_New "entropy source closed")
                                    "failed to rand.Int")
                       "failed to randomIdentifier"), s') /\
    instanceMapper s' = Sample.registry.
Proof.
  pose (s := Sample.state Sample.idle Sample.registry
               [ok 5; fail (errors_New "entropy source closed")]).
  pose (s' := set_rand_Reader [] s).
  assert (Hsetup : setupNewIdentifier "env-1" 0 s
                   = Returns (fail (errors_Wrap
                                      (errors_Wrap (errors_New "entropy source closed")
                                         "failed to rand.Int")
                                      "failed to randomIdentifier"), s'))
    by (vm_compute; reflexivity).
  exists s'. split; [exact Hsetup|].
  destruct (setupNewIdentifier_fails_only_with_the_random_source "env-1" 0 s s' _ Hsetup)
    as [Hmapper _].
  exact Hmapper.
Defined.

Lemma instanceForIdentifier_Returns
    (ident : Z) (needsFFIResult : bool) (s s' : State) (r : result ptr) :
  instanceForIdentifier ident needsFFIResult s = Returns (r, s') ->
  s' = s /\
  forall inst,
    r = ok inst ->
    resolves s ident inst /\
    (needsFFIResult = true ->
     exists x, inst_store s !! inst = Some x /\ ffiResult x = None).
Proof.
  unfold instanceForIdentifier, bindM, instanceMapper_Load, get, load_env,
    load_inst, lift, ret. simpl.
  destruct (instanceMapper s !! ident) as [ref|] eqn:Hm; simpl.
  2:{ intros [= <- <-]. split; [reflexivity|]. discriminate. }
  destruct (environments s !! EnvUUID ref) as [env|] eqn:He; simpl.
  2:{ intros [= <- <-]. split; [reflexivity|]. discriminate. }
  destruct (env_store s !! env) as [e|] eqn:Hs; simpl; [|discriminate].
  destruct (instanceAtIndex e (InstIndex ref)) as [[inst|err]| |] eqn:Hi; simpl;
    try discriminate.
  2:{ intros [= <- <-]. split; [reflexivity|]. discriminate. }
  assert (Hres : resolves s ident inst) by (exists ref, env, e; auto).
  destruct needsFFIResult; simpl.
  - destruct (inst_store s !! inst) as [x|] eqn:Hx; simpl; [|discriminate].
    destruct (ffiResult x) as [staged|] eqn:Hffi; intros [= <- <-];
      (split; [reflexivity|]); [discriminate|].
    intros inst' [= <-]. split; [exact Hres|]. intros _. exists x. auto.
  - intros [= <- <-]. split; [reflexivity|].
    intros inst' [= <-]. split; [exact Hres|]. discriminate.
Qed.



(** ** [useInstance] as a whole *)

(** X14: A call brackets [instFunc]: when the selection and the identifier
    succeed and [instFunc] returns, leaving the instance in the store,
    [useInstance] returns no error, the identifier is revoked, and the
    instance's context and staged result are nil again; when [instFunc]
    left the registry alone, the registry is as it was before the call. *)
Theorem useInstance_brackets_the_call
    (s s1 s2 s3 : State) (w : ptr) (e : wasmEnvironment) (c : option Ctx)
    (instFunc : ptr -> Z -> M unit) (i t : Z) (inst : ptr) (x y : wasmInstance) :
  environments s !! UUID e = Some w ->
  env_store s !! w = Some e ->
  useInstance_locked w s = Returns ((i, inst), s1) ->
  setupNewIdentifier (UUID e) i s1 = Returns (ok t, s2) ->
  inst_store s2 !! inst = Some x ->
  instFunc inst t
    (set_inst_store (<[inst := set_ctx c (set_ffiResult None x)]> (inst_store s2)) s2)
  = Returns (tt, s3) ->
  inst_store s3 !! inst = Some y ->
  exists s4 y',
    useInstance w c instFunc s = Returns (None, s4) /\
    instanceMapper s4 = delete t (instanceMapper s3) /\
    instanceMapper s4 !! t = None /\
    inst_store s4 !! inst = Some y' /\
    ctx y' = None /\ ffiResult y' = None /\ wasmerInst y' = wasmerInst y /\
    (instanceMapper s3 = instanceMapper s2 -> instanceMapper s4 = instanceMapper s).
Proof.
  intros Hreg He Hsel Hsetup Hx Hcall Hy.
  destruct (useInstance_enters_instFunc s s1 s2 w e c instFunc i t inst x
              Hreg He Hsel Hsetup Hx) as [_ Huse].
  rewrite Huse. unfold bindM at 1. rewrite Hcall. simpl.
  unfold bindM at 1, load_inst. rewrite Hy. simpl.
  eexists _, _. split; [reflexivity|]. simpl.
  split; [reflexivity|]. split; [apply lookup_delete_eq|].
  split; [apply lookup_insert_eq|]. repeat split.
  intros Hkept. rewrite Hkept.
  destruct (useInstance_locked_Returns _ _ _ _ _ _ He Hsel) as (_ & _ & _ & Hm1 & _).
  apply setupNewIdentifier_Returns in Hsetup.
  destruct Hsetup as (_ & _ & _ & _ & _ & Hfree & ->).
  rewrite delete_insert_eq, (delete_id _ _ Hfree). exact Hm1.
Qed.

Lemma useInstance_brackets_the_call_witness :
  exists s4,
    useInstance 1%positive None (fun inst ident => note_call "run_e")
      (Sample.state Sample.staged ∅ [ok 7])
    = Returns (None, s4) /\
    instanceMapper s4 = ∅ /\
    instanceMapper s4 !! 7 = None.
Proof.
  pose (s := Sample.state Sample.staged ∅ [ok 7]).
  pose (f := fun (inst : ptr) (ident : Z) => note_call "run_e").
  pose (s1 := set_env_store
                (<[1%positive := advanced (Sample.env [1%positive] 0)]> (env_store s)) s).
  pose (s2 := set_instanceMapper
                (<[7 := {| EnvUUID := "env-1"; InstIndex := 0 |}]> (instanceMapper s1))
                (set_rand_Reader [] s1)).
  pose (entry := set_inst_store
                   (<[1%positive := set_ctx None (set_ffiResult None Sample.staged)]>
                      (inst_store s2)) s2).
  pose (s3 := set_calls (calls entry ++ ["run_e"%string]) entry).
  assert (Hsel : useInstance_locked 1%positive s = Returns ((0, 1%positive), s1))
    by (vm_compute; reflexivity).
  assert (Hsetup : setupNewIdentifier "env-1" 0 s1 = Returns (ok 7, s2))
    by (vm_compute; reflexivity).
  assert (Hcall : f 1%positive 7 entry = Returns (tt, s3)) by reflexivity.
  destruct (useInstance_brackets_the_call s s1 s2 s3 1%positive
              (Sample.env [1%positive] 0) None f 0 7 1%positive Sample.staged
              (set_ctx None (set_ffiResult None Sample.staged))
              eq_refl eq_refl Hsel Hsetup eq_refl Hcall eq_refl)
    as (s4 & y' & Huse & _ & Hgone & _ & _ & _ & _ & Hkept).
  exists s4. split; [exact Huse|]. split; [|exact Hgone].
  rewrite Hkept; reflexivity.
Defined.

(** X15: When the random source fails, [useInstance] returns the wrapped error
    without calling [instFunc] and without touching the registry or the
    instances; the cursor has moved all the same. *)
Theorem useInstance_without_identifier
    (s s1 s2 : State) (w : ptr) (e : wasmEnvironment) (c : option Ctx)
    (instFunc : ptr -> Z -> M unit) (i : Z) (inst : ptr) (err : error) :
  env_store s !! w = Some e ->
  useInstance_locked w s = Returns ((i, inst), s1) ->
  setupNewIdentifier (UUID e) i s1 = Returns (fail err, s2) ->
  useInstance w c instFunc s
  = Returns (Some (errors_Wrap err "failed to setupNewIdentifier"), s2) /\
  instanceMapper s2 = instanceMapper s /\
  inst_store s2 = inst_store s /\
  calls s2 = calls s /\
  env_store s2 !! w = Some (advanced e).
Proof.
  intros He Hsel Hsetup.
  destruct (useInstance_locked_Returns _ _ _ _ _ _ He Hsel)
    as (_ & _ & _ & Hm1 & He1).
  assert (Hframe1 : inst_store s1 = inst_store s /\ calls s1 = calls s).
  { rewrite (useInstance_locked_unfold s w e He) in Hsel.
    destruct (index (instances e) (instIndex (advanced e))); simpl in Hsel;
      try discriminate.
    injection Hsel as _ _ <-. split; reflexivity. }
  split.
  - unfold useInstance, bindM at 1. rewrite Hsel. simpl.
    unfold bindM at 1, load_env. rewrite He1. simpl.
    unfold bindM at 1. rewrite advanced_UUID, Hsetup. reflexivity.
  - apply setupNewIdentifier_Returns in Hsetup.
    destruct Hsetup as (_ & Hes & His & _ & Hcs & Hmapper).
    rewrite Hmapper, His, Hcs, Hes. destruct Hframe1 as [-> ->]. auto.
Qed.

Lemma useInstance_without_identifier_witness :
  exists s2,
    useInstance 1%positive None (fun inst ident => note_call "run_e")
      (Sample.state Sample.idle ∅ [fail (errors_New "entropy source closed")])
    = Returns (Some (errors_Wrap
                       (errors_Wrap (errors_Wrap (errors_New "entropy source closed")
                                       "failed to rand.Int")
                          "failed to randomIdentifier")
                       "failed to setupNewIdentifier"), s2) /\
    calls s2 = [].
Proof.
  pose (s := Sample.state Sample.idle ∅ [fail (errors_New "entropy source closed")]).
  pose (s1 := set_env_store
                (<[1%positive := advanced (Sample.env [1%positive] 0)]> (env_store s)) s).
  pose (s2 := set_rand_Reader [] s1).
  assert (Hsel : useInstance_locked 1%positive s = Returns ((0, 1%positive), s1))
    by (vm_compute; reflexivity).
  assert (Hsetup : setupNewIdentifier "env-1" 0 s1
                   = Returns (fail (errors_Wrap
                                      (errors_Wrap (errors_New "entropy source closed")
                                         "failed to rand.Int")
                                      "failed to randomIdentifier"), s2))
    by (vm_compute; reflexivity).
  destruct (useInstance_without_identifier s s1 s2 1%positive (Sample.env [1%positive] 0)
              None (fun inst ident => note_call "run_e") 0 1%positive _
              eq_refl Hsel Hsetup) as (Huse & _ & _ & Hcalls & _).
  exists s2. split; [exact Huse|]. exact Hcalls.
Defined.

(** ** [graphql_query] with a registered identifier *)

Lemma instanceForIdentifier_staged
    (s : State) (ident : Z) (inst : ptr) (x : wasmInstance) (staged : bytes) :
  resolves s ident inst ->
  inst_store s !! inst = Some x ->
  ffiResult x = Some staged ->
  instanceForIdentifier ident true s
  = Returns (fail (errors_New
      "cannot use instance for host call with existing call in progress"), s).
Proof.
  intros (ref & env & e & Hm & He & Hs & Hi) Hx Hffi.
  unfold instanceForIdentifier, bindM, instanceMapper_Load, get, load_env,
    load_inst, lift.
  simpl. rewrite Hm. simpl. rewrite He, Hs. simpl. rewrite Hi. simpl.
  rewrite Hx. simpl. rewrite Hffi. reflexivity.
Qed.

(** X21: The successful host call: the endpoint and the query are read from
    guest memory, the capability is invoked once, its marshalled
    response is staged on the calling instance, and the call returns the
    length of what it staged, which [useFFIResult] then hands out. *)
Theorem graphql_query_stages_the_response
    (s : State) (identifier : Z) (inst : ptr) (x : wasmInstance) (c : Ctx)
    (endpointPointer endpointSize queryPointer querySize : Z)
    (endpoint query respBytes : bytes) (resp : GraphQLResponse) :
  resolves s identifier inst ->
  inst_store s !! inst = Some x ->
  ffiResult x = None ->
  ctx x = Some c ->
  readMemory x endpointPointer endpointSize = Returns endpoint ->
  readMemory x queryPointer querySize = Returns query ->
  GraphQLClient_Do c (Auth c) endpoint query = ok resp ->
  json_Marshal_response resp = ok respBytes ->
  len respBytes <= MaxInt32 ->
  exists s',
    Api.graphql_query endpointPointer endpointSize queryPointer querySize identifier s
    = Returns (len respBytes, s') /\
    inst_store s' = <[inst := set_ffiResult (Some respBytes) x]> (inst_store s) /\
    fst (useFFIResult (set_ffiResult (Some respBytes) x)) = ok (Some respBytes) /\
    calls s' = calls s ++ ["GraphQLClient.Do"%string] /\
    internalLogger s' = internalLogger s /\
    instanceMapper s' = instanceMapper s.
Proof.
  intros Hres Hx Hffi Hctx Hendpoint Hquery Hdo Hmarshal Hsize.
  unfold Api.graphql_query, bindM at 1.
  rewrite (instanceForIdentifier_idle s identifier inst x true Hres Hx Hffi). simpl.
  unfold bindM at 1, load_inst at 1. rewrite Hx. simpl.
  unfold bindM at 1, lift at 1. rewrite Hendpoint. simpl.
  unfold bindM at 1, lift at 1. rewrite Hquery. simpl.
  rewrite Hctx. unfold bindM at 1, note_call. simpl.
  rewrite Hdo, Hmarshal.
  unfold bindM, load_inst, store_inst, ret. simpl. rewrite Hx. simpl.
  unfold setFFIResult. rewrite Hffi. simpl.
  rewrite int32_id by (unfold len, MaxInt32 in *; lia).
  eexists. split; [reflexivity|]. simpl. auto 10.
Qed.

Lemma graphql_query_stages_the_response_witness :
  exists s',
    Api.graphql_query 0 2 2 2 5 (Sample.state Sample.in_call Sample.registry [])
    = Returns (2, s') /\
    inst_store s' !! 1%positive
    = Some (set_ffiResult (Some [Byte.x7b; Byte.x7d]) Sample.in_call).
Proof.
  assert (Hsize : len [Byte.x7b; Byte.x7d] <= MaxInt32) by (vm_compute; discriminate).
  destruct (graphql_query_stages_the_response
              (Sample.state Sample.in_call Sample.registry []) 5 1%positive
              Sample.in_call Sample.graphql 0 2 2 2
              [Byte.x0a; Byte.x0b] [Byte.x0c; Byte.x0d] [Byte.x7b; Byte.x7d]
              Sample.response)
    as (s' & Hcall & Hstore & _); try reflexivity; try exact Hsize.
  { exists {| EnvUUID := "env-1"; InstIndex := 0 |}, 1%positive,
      (Sample.env [1%positive] 0).
    repeat split; vm_compute; reflexivity. }
  exists s'. split; [exact Hcall|]. rewrite Hstore. apply lookup_insert_eq.
Defined.

(** X22: A host call made while a result is still staged on the instance, or
    whose capability or marshalling fails, returns -1, stages nothing and
    logs one error; in the first case the capability is not invoked. *)
Theorem graphql_query_failures_stage_nothing
    (s : State) (identifier : Z) (inst : ptr) (x : wasmInstance)
    (endpointPointer endpointSize queryPointer querySize : Z) :
  resolves s identifier inst ->
  inst_store s !! inst = Some x ->
  (forall staged, ffiResult x = Some staged ->
     exists s',
       Api.graphql_query endpointPointer endpointSize queryPointer querySize identifier s
       = Returns (-1, s') /\
       inst_store s' = inst_store s /\ calls s' = calls s /\
       length (internalLogger s') = S (length (internalLogger s))) /\
  (forall c endpoint query,
     ffiResult x = None ->
     ctx x = Some c ->
     readMemory x endpointPointer endpointSize = Returns endpoint ->
     readMemory x queryPointer querySize = Returns query ->
     (forall resp respBytes,
        GraphQLClient_Do c (Auth c) endpoint query = ok resp ->
        json_Marshal_response resp <> ok respBytes) ->
     exists s',
       Api.graphql_query endpointPointer endpointSize queryPointer querySize identifier s
       = Returns (-1, s') /\
       inst_store s' = inst_store s /\
       calls s' = calls s ++ ["GraphQLClient.Do"%string] /\
       length (internalLogger s') = S (length (internalLogger s))).
Proof.
  intros Hres Hx. split.
  - intros staged Hffi. unfold Api.graphql_query, bindM at 1.
    rewrite (instanceForIdentifier_staged s identifier inst x staged Hres Hx Hffi).
    simpl. eexists. split; [reflexivity|]. simpl.
    rewrite length_app. simpl. repeat split. lia.
  - intros c endpoint query Hffi Hctx Hendpoint Hquery Hfails.
    unfold Api.graphql_query, bindM at 1.
    rewrite (instanceForIdentifier_idle s identifier inst x true Hres Hx Hffi). simpl.
    unfold bindM at 1, load_inst at 1. rewrite Hx. simpl.
    unfold bindM at 1, lift at 1. rewrite Hendpoint. simpl.
    unfold bindM at 1, lift at 1. rewrite Hquery. simpl.
    rewrite Hctx. unfold bindM at 1, note_call. simpl.
    destruct (GraphQLClient_Do c (Auth c) endpoint query) as [resp|err] eqn:Hdo.
    + destruct (json_Marshal_response resp) as [respBytes|err] eqn:Hmarshal.
      * exfalso. apply (Hfails resp respBytes eq_refl Hmarshal).
      * eexists. split; [reflexivity|]. simpl.
        rewrite length_app. simpl. repeat split. lia.
    + eexists. split; [reflexivity|]. simpl.
      rewrite length_app. simpl. repeat split. lia.
Qed.

Lemma graphql_query_failures_stage_nothing_witness :
  (exists s',
     Api.graphql_query 0 2 2 2 5 (Sample.state Sample.staged Sample.registry [])
     = Returns (-1, s') /\ calls s' = []) /\
  (exists s',
     Api.graphql_query 1 2 2 2 5 (Sample.state Sample.in_call Sample.registry [])
     = Returns (-1, s') /\ calls s' = ["GraphQLClient.Do"%string]).
Proof.
  assert (Hres : forall x, resolves (Sample.state x Sample.registry []) 5 1%positive).
  { intros x. exists {| EnvUUID := "env-1"; InstIndex := 0 |}, 1%positive,
      (Sample.env [1%positive] 0).
    repeat split; vm_compute; reflexivity. }
  split.
  - destruct (graphql_query_failures_stage_nothing
                (Sample.state Sample.staged Sample.registry []) 5 1%positive
                Sample.staged 0 2 2 2 (Hres _) eq_refl) as [Hstaged _].
    destruct (Hstaged [Byte.x7b; Byte.x7d] eq_refl) as (s' & Hcall & _ & Hcalls & _).
    exists s'. split; [exact Hcall | exact Hcalls].
  - destruct (graphql_query_failures_stage_nothing
                (Sample.state Sample.in_call Sample.registry []) 5 1%positive
                Sample.in_call 1 2 2 2 (Hres _) eq_refl) as [_ Hfails].
    destruct (Hfails Sample.graphql [Byte.x0b; Byte.x0c] [Byte.x0c; Byte.x0d]
                eq_refl eq_refl eq_refl eq_refl) as (s' & Hcall & _ & Hcalls & _).
    { intros resp respBytes Hdo. vm_compute in Hdo. discriminate Hdo. }
    exists s'. split; [exact Hcall | exact Hcalls].
Defined.

(** X23: Whatever the host call returns that is not -1 is the length of the
    response it staged on the instance the identifier leads to. *)
Theorem graphql_query_returns_the_staged_length
    (s s' : State) (identifier v : Z)
    (endpointPointer endpointSize queryPointer querySize : Z) :
  Api.graphql_query endpointPointer endpointSize queryPointer querySize identifier s
  = Returns (v, s') ->
  v = -1 \/
  exists inst x respBytes,
    resolves s identifier inst /\
    inst_store s' !! inst = Some x /\
    ffiResult x = Some respBytes /\
    v = int32 (len respBytes).
Proof.
  unfold Api.graphql_query, bindM at 1.
  destruct (instanceForIdentifier identifier true s) as [[r s0]| |] eqn:Hlookup;
    simpl; try discriminate.
  apply instanceForIdentifier_Returns in Hlookup. destruct Hlookup as [-> Hsound].
  destruct r as [inst|err].
  2:{ intros [= <- _]. left. reflexivity. }
  destruct (Hsound inst eq_refl) as [Hres Hidle].
  destruct (Hidle eq_refl) as (x & Hx & Hffi).
  unfold bindM at 1, load_inst at 1. rewrite Hx. simpl.
  unfold bindM at 1, lift at 1.
  destruct (readMemory x endpointPointer endpointSize) as [endpoint| |];
    simpl; try discriminate.
  unfold bindM at 1, lift at 1.
  destruct (readMemory x queryPointer querySize) as [query| |];
    simpl; try discriminate.
  destruct (ctx x) as [c|]; [|discriminate].
  unfold bindM at 1, note_call. simpl.
  destruct (GraphQLClient_Do c (Auth c) endpoint query) as [resp|err].
  2:{ intros [= <- _]. left. reflexivity. }
  destruct (json_Marshal_response resp) as [respBytes|err].
  2:{ intros [= <- _]. left. reflexivity. }
  unfold bindM, load_inst, store_inst, ret. simpl. rewrite Hx. simpl.
  unfold setFFIResult. rewrite Hffi. simpl. intros [= <- <-].
  right. exists inst, (set_ffiResult (Some respBytes) x), respBytes.
  split; [exact Hres|]. simpl. split; [apply lookup_insert_eq|]. auto.
Qed.

Lemma graphql_query_returns_the_staged_length_witness :
  let s := Sample.state Sample.in_call Sample.registry [] in
  let s' := set_inst_store
              (<[1%positive := set_ffiResult (Some [Byte.x7b; Byte.x7d]) Sample.in_call]>
                 (inst_store s))
              (set_calls ["GraphQLClient.Do"%string] s) in
  Api.graphql_query 0 2 2 2 5 s = Returns (2, s') /\
  exists inst x respBytes,
    inst_store s' !! inst = Some x /\
    ffiResult x = Some respBytes /\
    2 = int32 (len respBytes).
Proof.
  intros s s'.
  assert (Hcall : Api.graphql_query 0 2 2 2 5 s = Returns (2, s'))
    by (vm_compute; reflexivity).
  split; [exact Hcall|].
  destruct (graphql_query_returns_the_staged_length s s' 5 2 0 2 2 2 Hcall)
    as [Hminus|(inst & x & respBytes & _ & Hx & Hffi & Hv)].
  - discriminate Hminus.
  - exists inst, x, respBytes. auto.
Defined.

(** ** The host function around [graphql_query] *)



(** ** [Listen]: errors that wrap a [RunErr] *)

Lemma errors_As_RunErr_wrapped (r : RunErr) (msgs : list string) :
  errors_As_RunErr (foldr (fun msg err => errors_Wrap err msg) (error_RunErr r) msgs)
  = Some r.
Proof. induction msgs as [|msg msgs IH]; simpl; auto. Qed.

(** X25: However often a [RunErr] was wrapped on its way to the handler, the
    reply goes out on [reactr.runerr] and carries the [RunErr]'s own text:
    the messages of the wrappers are not part of the reply. *)
Theorem Listen_replies_with_the_wrapped_RunErr
    (RunErr_Error : RunErr -> string) (Do_Then : Rt.Job -> Rt.any * option error)
    (msgType uuid : string) (msg : Rt.Message) (result : Rt.any)
    (r : RunErr) (msgs : list string) :
  Do_Then (Rt.NewJob msgType (Rt.Data msg))
  = (result, Some (foldr (fun msg err => errors_Wrap err msg) (error_RunErr r) msgs)) ->
  Rt.replies (Rt.Listen_onMessage RunErr_Error Do_Then msgType uuid msg)
  = [ {| Rt.UUID := uuid; Rt.ParentID := Rt.ParentID msg; Rt.ReplyTo := Rt.UUID msg;
         Rt.Type_ := Rt.MsgTypeReactrRunErr;
         Rt.Data := String.list_byte_of_string (RunErr_Error r) |} ].
Proof.
  intros Hjob. unfold Rt.Listen_onMessage. cbv beta zeta. rewrite Hjob.
  rewrite errors_As_RunErr_wrapped. reflexivity.
Qed.

Lemma Listen_replies_with_the_wrapped_RunErr_witness :
  Rt.replies
    (Rt.Listen_onMessage Sample.RunErr_Error
       (fun _ => (Rt.any_nil,
                  Some (errors_Wrap (errors_Wrap
                          (error_RunErr {| Code := 400; Message := "bad input" |})
                          "failed to execute Wasm Runnable") "failed to Run")))
       "compute" "msg-3" Sample.inbound)
  = [ {| Rt.UUID := "msg-3"; Rt.ParentID := "parent-1"; Rt.ReplyTo := "msg-1";
         Rt.Type_ := "reactr.runerr";
         Rt.Data := String.list_byte_of_string "bad input" |} ].
Proof.
  exact (Listen_replies_with_the_wrapped_RunErr Sample.RunErr_Error
           (fun _ => (Rt.any_nil,
                      Some (errors_Wrap (errors_Wrap
                              (error_RunErr {| Code := 400; Message := "bad input" |})
                              "failed to execute Wasm Runnable") "failed to Run")))
           "compute" "msg-3" Sample.inbound Rt.any_nil
           {| Code := 400; Message := "bad input" |}
           ["failed to Run"; "failed to execute Wasm Runnable"]%string eq_refl).
Defined.

(** ** [internals] *)

(** X2: The module is compiled at most once: after a successful call every
    later call returns the same module, store and imports without asking
    the engine and without changing the state; a failed call leaves the
    state as it was, so that the next call tries again. *)
Theorem internals_compiles_once
    (W : wasmer) (s s1 : State) (w : ptr) (e : wasmEnvironment)
    (r : result (option wasmer_Module * option wasmer_Store * option wasmer_ImportObject)) :
  env_store s !! w = Some e ->
  internals W w s = Returns (r, s1) ->
  match r with
  | ok compiled => forall W', internals W' w s1 = Returns (ok compiled, s1)
  | fail _ => s1 = s
  end.
Proof.
  intros He. unfold internals, bindM at 1, load_env at 1. rewrite He. simpl.
  destruct (module e) as [m|] eqn:Hm.
  { intros [= <- <-]. intros W'.
    unfold internals, bindM, load_env. rewrite He. simpl. rewrite Hm. reflexivity. }
  destruct (Bytes (ref e)) as [moduleBytes|err]; [|intros [= <- <-]; reflexivity].
  destruct (NewModule W _ moduleBytes) as [mod_|err]; [|intros [= <- <-]; reflexivity].
  destruct (NewWasiStateBuilder_Finalize W (Name (ref e))) as [env|err];
    [|intros [= <- <-]; reflexivity].
  unfold bindM, store_env, ret. simpl. intros [= <- <-]. intros W'.
  unfold internals, bindM, load_env. simpl. rewrite lookup_insert_eq. reflexivity.
Qed.

Lemma internals_compiles_once_witness :
  exists compiled s1,
    internals Sample.engine 1%positive Sample.empty_pool = Returns (ok compiled, s1) /\
    forall W', internals W' 1%positive s1 = Returns (ok compiled, s1).
Proof.
  destruct (internals Sample.engine 1%positive Sample.empty_pool)
    as [[[compiled|err] s1]| |] eqn:Hfirst;
    try (vm_compute in Hfirst; discriminate Hfirst).
  exists compiled, s1. split; [reflexivity|].
  exact (internals_compiles_once Sample.engine Sample.empty_pool s1 1%positive
           (Sample.env [] 0) (ok compiled) eq_refl Hfirst).
Defined.

Lemma addInstance_keeps_registered_witness :
  exists r s',
    addInstance Sample.engine 1%positive (Sample.pool_of_two []) = Returns (r, s') /\
    registered s' 1%positive.
Proof.
  destruct (addInstance Sample.engine 1%positive (Sample.pool_of_two []))
    as [[r s']| |] eqn:Hadd; try (vm_compute in Hadd; discriminate Hadd).
  exists r, s'. split; [reflexivity|].
  apply (addInstance_keeps_registered Sample.engine (Sample.pool_of_two []) s'
           1%positive 1%positive (Sample.env [1%positive; 2%positive] 0) r eq_refl Hadd).
  exists (Sample.env [1%positive; 2%positive] 0). split; reflexivity.
Defined.

Lemma writeMemory_readMemory_witness :
  exists w',
    Glue.writeMemory Sample.allocate Sample.allocating [Byte.xff; Byte.xfe]
    = Returns (ok 1, w') /\
    readMemory w' 1 2 = Returns [Byte.xff; Byte.xfe].
Proof.
  assert (Hfit : 1 + len [Byte.xff; Byte.xfe] <= len Sample.memory)
    by (vm_compute; discriminate).
  assert (Hsize : len [Byte.xff; Byte.xfe] <= MaxInt32) by (vm_compute; discriminate).
  exact (writeMemory_readMemory Sample.allocate Sample.allocating
           Sample.allocating_guest Sample.allocating_guest {| fn_err := None |}
           Sample.memory [Byte.xff; Byte.xfe] 1
           eq_refl eq_refl eq_refl eq_refl ltac:(lia) Hfit Hsize).
Defined.

Lemma writeMemory_allocate_errors_witness :
  Glue.writeMemory Sample.allocate Sample.idle [Byte.xff]
  = Returns (fail (errors_New "missing required FFI function: allocate"), Sample.idle) /\
  exists w',
    Glue.writeMemory Sample.allocate Sample.allocating
      [Byte.x01; Byte.x02; Byte.x03; Byte.x04]
    = Returns (fail (errors_Wrap (errors_New "out of memory") "failed to call allocate"),
               w').
Proof.
  split.
  - destruct (writeMemory_allocate_errors Sample.allocate Sample.idle Sample.guest
                [Byte.xff] eq_refl) as [Hmissing _].
    apply Hmissing. intros f Hf. vm_compute in Hf. discriminate Hf.
  - destruct (writeMemory_allocate_errors Sample.allocate Sample.allocating
                Sample.allocating_guest [Byte.x01; Byte.x02; Byte.x03; Byte.x04]
                eq_refl) as [_ Hfails].
    eexists. apply (Hfails {| fn_err := None |}); reflexivity.
Defined.

(** ** A module without a [memory] export *)

(** X20: Without a [memory] export neither direction reports anything: a read
    returns an empty slice whatever size was asked for, and a write
    returns with the instance unchanged. *)
Theorem missing_memory_is_silent
    (w : wasmInstance) (guest : wasmer_Instance) (pointer size : Z) (data : bytes) :
  wasmerInst w = Some guest ->
  (forall memory, GetMemory guest "memory" <> ok (Some memory)) ->
  readMemory w pointer size = Returns [] /\
  Glue.writeMemoryAtLocation w pointer data = Returns w.
Proof.
  intros Hw Hnone. split; [apply (readMemory_no_memory w guest); assumption|].
  unfold Glue.writeMemoryAtLocation. rewrite Hw.
  destruct (GetMemory guest "memory") as [[memory|]|err]; try reflexivity.
  exfalso. apply (Hnone memory). reflexivity.
Qed.

Lemma missing_memory_is_silent_witness :
  readMemory Sample.without_memory 0 16 = Returns [] /\
  Glue.writeMemoryAtLocation Sample.without_memory 0 [Byte.xff]
  = Returns Sample.without_memory.
Proof.
  eapply (missing_memory_is_silent Sample.without_memory _ 0 16 [Byte.xff]).
  - reflexivity.
  - intros memory Hmem. vm_compute in Hmem. discriminate Hmem.
Defined.

Lemma setupNewIdentifier_twice_distinct_witness :
  exists s1 s2,
    setupNewIdentifier "env-1" 0 (Sample.pool_of_two [ok 7; ok 7; ok 8])
    = Returns (ok 7, s1) /\
    setupNewIdentifier "env-1" 1 s1 = Returns (ok 8, s2) /\
    instanceMapper s2 !! 7 = Some {| EnvUUID := "env-1"; InstIndex := 0 |} /\
    instanceMapper s2 !! 8 = Some {| EnvUUID := "env-1"; InstIndex := 1 |}.
Proof.
  pose (s := Sample.pool_of_two [ok 7; ok 7; ok 8]).
  pose (s1 := set_instanceMapper
                (<[7 := {| EnvUUID := "env-1"; InstIndex := 0 |}]> (instanceMapper s))
                (set_rand_Reader [ok 7; ok 8] s)).
  pose (s2 := set_instanceMapper
                (<[8 := {| EnvUUID := "env-1"; InstIndex := 1 |}]> (instanceMapper s1))
                (set_rand_Reader [] s1)).
  assert (H1 : setupNewIdentifier "env-1" 0 s = Returns (ok 7, s1))
    by (vm_compute; reflexivity).
  assert (H2 : setupNewIdentifier "env-1" 1 s1 = Returns (ok 8, s2))
    by (vm_compute; reflexivity).
  exists s1, s2. split; [exact H1|]. split; [exact H2|].
  destruct (setupNewIdentifier_twice_distinct "env-1" "env-1" 0 1 s s1 s2 7 8 H1 H2)
    as (_ & Hfirst & Hsecond).
  split; [exact Hfirst | exact Hsecond].
Defined.
